(** * Static elastic deformation with RBF-FD: assembly of the linear system

    A shallow embedding of [docs/scripts/fd.b.py].  The script builds the
    four displacement-coupling blocks of a 2-D linear-elasticity operator,
    the right-hand side, solves the system and derives the strain fields.

    Conventions of the embedding:
    - in the assembly of the operator and of the right-hand side Python
      floats are idealised as the real numbers [R]: a NumPy vector is a
      [list R], an N x M (sparse) matrix the list of its N rows, each a
      list of M reals;
    - in the strain step, where rounding, overflow and NaN decide what is
      plotted, a Python float is an IEEE binary64 number [float], and a
      sparse matrix is the list of its rows, each the list of its stored
      entries (column, value) in storage order;
    - the dictionary [idx] of node groups is a [gmap string (list nat)];
    - Python exceptions are the constructors of [error], threaded through
      the error monad [res]. *)

From Stdlib Require Import Floats Reals Lra.
From stdpp Require Import base option list gmap strings.

(** ** Exceptions and the error monad *)

Inductive error : Type :=
  | KeyError            (* a missing dictionary key *)
  | IndexError          (* an array index out of bounds *)
  | ValueError          (* arrays whose shapes do not fit *)
  | DimensionMismatch.  (* rows produced for a block vs. its target set *)

Inductive res (A : Type) : Type :=
  | Ok (a : A)
  | Err (e : error).
Arguments Ok {A} a.
Arguments Err {A} e.

#[global] Instance res_ret : MRet res := fun A a => Ok a.
#[global] Instance res_bind : MBind res := fun A B f m =>
  match m with
  | Ok a => f a
  | Err e => Err e
  end.

Definition of_option {A} (e : error) (o : option A) : res A :=
  match o with
  | Some a => Ok a
  | None => Err e
  end.

(** Monadic left fold: the statements of a loop run in sequence. *)
Fixpoint foldM {A S} (f : S -> A -> res S) (s : S) (l : list A) : res S :=
  match l with
  | [] => Ok s
  | a :: l' => s' ← f s a; foldM f s' l'
  end.

(** Monadic map. *)
Fixpoint mapM_res {A B} (f : A -> res B) (l : list A) : res (list B) :=
  match l with
  | [] => Ok []
  | a :: l' => b ← f a; bs ← mapM_res f l'; Ok (b :: bs)
  end.

(** ** Vectors and matrices *)

Abbreviation point := (R * R)%type (only parsing).
Abbreviation diff := (nat * nat)%type (only parsing).
Abbreviation row := (list R) (only parsing).
Abbreviation matrix := (list (list R)) (only parsing).

(** [np.zeros((N,))] *)
Definition zeros (N : nat) : list R := replicate N 0%R.

(** [sp.csr_matrix((N, M))]: the empty sparse matrix, all entries zero. *)
Definition csr_matrix (N M : nat) : matrix := replicate N (zeros M).

(** [a[ix]] with an integer index array [ix]. *)
Definition take_idx {A} (a : list A) (ix : list nat) : res (list A) :=
  mapM_res (fun i => of_option IndexError (a !! i)) ix.

(** [a[ix] = v] with an integer index array [ix] and a scalar [v]. *)
Definition set_idx {A} (a : list A) (ix : list nat) (v : A) : res (list A) :=
  foldM (fun a i => if decide (i < length a) then Ok (<[i:=v]> a)
                    else Err IndexError) a ix.

(** [idx[k]] on the dictionary of node groups. *)
Definition getitem (idx : gmap string (list nat)) (k : string)
  : res (list nat) :=
  of_option KeyError (idx !! k).
Arguments getitem idx k%_string.

(** [sp.hstack((A, B))] and [sp.vstack((A, B))]. *)
Definition hstack (A B : matrix) : res matrix :=
  if decide (length A = length B) then Ok (zip_with (@List.app R) A B)
  else Err ValueError.

Definition vstack (A B : matrix) : matrix := A ++ B.

(** Dot product of a row with a vector, and [D.dot(u)]. *)
Definition dotprod (r u : list R) : R :=
  foldr Rplus 0%R (zip_with Rmult r u).

Definition dot (M : matrix) (u : list R) : list R :=
  map (fun r => dotprod r u) M.

(** ** Inputs of the script *)

(** The user defined parameters: stencil size, Lamé parameters and the
    body force.  (The node budget [N] and the domain polygon only feed the
    node generator.) *)
Record params : Type := Params {
  n : nat;
  lamb : R;
  mu : R;
  body_force : R
}.

(** The values written in the script. *)
Definition user_params : params :=
  {| n := 20; lamb := 1; mu := 1; body_force := 1 |}.

(** What [min_energy_nodes] returns: the node coordinates (ghosts
    included), the dictionary of node groups, and one normal per node. *)
Record layout : Type := Layout {
  nodes : list point;
  idx : gmap string (list nat);
  normals : list point
}.

(** A coefficient of [weight_matrix]: a scalar, or one value per
    evaluation point. *)
Inductive coeff : Type :=
  | Scalar (c : R)
  | Array (cs : list R).

Definition broadcast (m : nat) (c : coeff) : res (list R) :=
  match c with
  | Scalar v => Ok (replicate m v)
  | Array cs => if decide (length cs = m) then Ok cs else Err ValueError
  end.

(** The four displacement-coupling blocks. *)
Record blocks : Type := Blocks {
  G_xx : matrix;
  G_xy : matrix;
  G_yx : matrix;
  G_yy : matrix
}.

(** The three kinds of rows the assembly writes. *)
Inductive stage : Type := PDE | Dirichlet | Traction.

#[global] Instance stage_eq_dec : EqDecision stage.
Proof. solve_decision. Defined.

(** The assembled system: the blocks, the stacked operator and the
    right-hand side. *)
Record system : Type := System {
  sys_blocks : blocks;
  G : matrix;
  d_x : list R;
  d_y : list R;
  d : list R
}.

(** Modelled from the spec: the row writes of [rbf.fd.add_rows], which is
    not part of the sources.  The rows of [B] are scattered into the rows
    [ix] of [A], in order; a row that is written replaces what the row
    held before (the last write wins).  A target index outside the matrix
    raises, as array indexing does. *)
Definition scatter (A : matrix) (ix : list nat) (B : matrix) : res matrix :=
  foldM (fun A '(i, r) => if decide (i < length A) then Ok (<[i:=r]> A)
                          else Err IndexError) A (zip ix B).

(** Modelled from the spec: [rbf.fd.add_rows] is not part of the sources.
    The call fails with [DimensionMismatch] when [B] does not have one row
    per target index, and scatters the rows of [B] otherwise. *)
Definition add_rows (A B : matrix) (ix : list nat) : res matrix :=
  if decide (length B = length ix) then scatter A ix B
  else Err DimensionMismatch.

Section Script.

(** The stencil engine behind [weight_matrix] is external:
    [weights n p x df j] is the weight that the size-[n] RBF-FD stencil of
    the derivative [df] at the point [x] gives to node [j] of [p]. *)
Variable weights : nat -> list point -> point -> diff -> nat -> R.

(** Modelled from the spec: one row of the matrix [rbf.fd.weight_matrix]
    returns, the linear combination of the stencils of the listed
    derivatives. *)
Definition weight_row (n : nat) (p : list point) (x : point)
    (terms : list (diff * R)) : row :=
  map (fun j => foldr (fun t acc => (t.2 * weights n p x t.1 j + acc)%R)
                      0%R terms)
      (seq 0 (length p)).

(** Modelled from the spec: [rbf.fd.weight_matrix] is not part of the
    sources.  One row per evaluation point of [x], one column per node of
    [p]; the row is the linear combination of the derivatives [diffs] with
    the coefficients [coeffs], scalar or per evaluation point. *)
Definition weight_matrix (x p : list point) (diffs : list diff)
    (coeffs : list coeff) (n : nat) : res matrix :=
  if decide (length diffs = length coeffs) then
    cs ← mapM_res (broadcast (length x)) coeffs;
    Ok (imap (fun k xk =>
                weight_row n p xk
                  (zip diffs (map (fun c => nth k c 0%R) cs))) x)
  else Err ValueError.

(** *** Node groups *)

(** "form additional useful node groups" *)
Definition form_groups (idx : gmap string (list nat))
  : res (gmap string (list nat)) :=
  i ← getitem idx "interior";
  f ← getitem idx "free";
  let idx := <["interior+free" := i ++ f]> idx in
  i ← getitem idx "interior";
  g ← getitem idx "free_ghosts";
  let idx := <["interior+ghosts" := i ++ g]> idx in
  i ← getitem idx "interior";
  f ← getitem idx "free";
  x ← getitem idx "fixed";
  Ok (<["interior+boundary" := i ++ f ++ x]> idx).

(** *** The three assembly stages *)

(** One [weight_matrix] / [add_rows] pair of the script: the operator is
    evaluated at the nodes of the group [at] and its rows are written into
    the rows of the group [into]. *)
Definition enforce (P : params) (nodes : list point)
    (idx : gmap string (list nat)) (A : matrix) (at_ into : string)
    (diffs : list diff) (coeffs : list coeff) : res matrix :=
  e ← getitem idx at_;
  x ← take_idx nodes e;
  D ← weight_matrix x nodes diffs coeffs (n P);
  t ← getitem idx into;
  add_rows A D t.

(** "Enforce the PDE on interior nodes AND the free surface nodes" *)
Definition pde_stage (P : params) (nodes : list point)
    (idx : gmap string (list nat)) (B : blocks) : res blocks :=
  let coeffs_xx := [Scalar (lamb P + 2 * mu P)%R; Scalar (mu P)] in
  let diffs_xx := [(2, 0); (0, 2)] in
  let coeffs_xy := [Scalar (lamb P); Scalar (mu P)] in
  let diffs_xy := [(1, 1); (1, 1)] in
  let coeffs_yx := [Scalar (mu P); Scalar (lamb P)] in
  let diffs_yx := [(1, 1); (1, 1)] in
  let coeffs_yy := [Scalar (lamb P + 2 * mu P)%R; Scalar (mu P)] in
  let diffs_yy := [(0, 2); (2, 0)] in
  xx ← enforce P nodes idx (G_xx B) "interior+free" "interior+ghosts"
         diffs_xx coeffs_xx;
  xy ← enforce P nodes idx (G_xy B) "interior+free" "interior+ghosts"
         diffs_xy coeffs_xy;
  yx ← enforce P nodes idx (G_yx B) "interior+free" "interior+ghosts"
         diffs_yx coeffs_yx;
  yy ← enforce P nodes idx (G_yy B) "interior+free" "interior+ghosts"
         diffs_yy coeffs_yy;
  Ok {| G_xx := xx; G_xy := xy; G_yx := yx; G_yy := yy |}.

(** "Enforce fixed boundary conditions" *)
Definition fixed_stage (P : params) (nodes : list point)
    (idx : gmap string (list nat)) (B : blocks) : res blocks :=
  let coeffs_xx := [Scalar 1%R] in
  let diffs_xx := [(0, 0)] in
  let coeffs_yy := [Scalar 1%R] in
  let diffs_yy := [(0, 0)] in
  xx ← enforce P nodes idx (G_xx B) "fixed" "fixed" diffs_xx coeffs_xx;
  yy ← enforce P nodes idx (G_yy B) "fixed" "fixed" diffs_yy coeffs_yy;
  Ok {| G_xx := xx; G_xy := G_xy B; G_yx := G_yx B; G_yy := yy |}.

(** [normals[idx['free']][:, k] * c] *)
Definition normal_coeff (normals : list point)
    (idx : gmap string (list nat)) (k : point -> R) (c : R) : res coeff :=
  f ← getitem idx "free";
  nf ← take_idx normals f;
  Ok (Array (map (fun v => (k v * c)%R) nf)).

(** "Enforce free surface boundary conditions" *)
Definition free_stage (P : params) (nodes normals : list point)
    (idx : gmap string (list nat)) (B : blocks) : res blocks :=
  let nc := normal_coeff normals idx in
  cxx0 ← nc fst (lamb P + 2 * mu P)%R; cxx1 ← nc snd (mu P);
  let diffs_xx := [(1, 0); (0, 1)] in
  cxy0 ← nc fst (lamb P); cxy1 ← nc snd (mu P);
  let diffs_xy := [(0, 1); (1, 0)] in
  cyx0 ← nc fst (mu P); cyx1 ← nc snd (lamb P);
  let diffs_yx := [(0, 1); (1, 0)] in
  cyy0 ← nc snd (lamb P + 2 * mu P)%R; cyy1 ← nc fst (mu P);
  let diffs_yy := [(0, 1); (1, 0)] in
  xx ← enforce P nodes idx (G_xx B) "free" "free" diffs_xx [cxx0; cxx1];
  xy ← enforce P nodes idx (G_xy B) "free" "free" diffs_xy [cxy0; cxy1];
  yx ← enforce P nodes idx (G_yx B) "free" "free" diffs_yx [cyx0; cyx1];
  yy ← enforce P nodes idx (G_yy B) "free" "free" diffs_yy [cyy0; cyy1];
  Ok {| G_xx := xx; G_xy := xy; G_yx := yx; G_yy := yy |}.

Definition run_stage (P : params) (nodes normals : list point)
    (idx : gmap string (list nat)) (B : blocks) (s : stage) : res blocks :=
  match s with
  | PDE => pde_stage P nodes idx B
  | Dirichlet => fixed_stage P nodes idx B
  | Traction => free_stage P nodes normals idx B
  end.

(** *** The right-hand side *)

(** The group of rows a stage writes. *)
Definition target (s : stage) : string :=
  match s with
  | PDE => "interior+ghosts"
  | Dirichlet => "fixed"
  | Traction => "free"
  end.

(** The forcing the script assigns to the rows of a stage, in the
    x-equations and in the y-equations. *)
Definition force_x (P : params) (s : stage) : R := 0%R.

Definition force_y (P : params) (s : stage) : R :=
  match s with
  | PDE => body_force P
  | _ => 0%R
  end.

(** [d[idx[target]] = v] *)
Definition assign_rhs (idx : gmap string (list nat)) (v : stage -> R)
    (d : list R) (s : stage) : res (list R) :=
  t ← getitem idx (target s);
  set_idx d t (v s).

(** *** The whole assembly *)

(** The script, from the node groups to the right-hand side. *)
Definition assemble (P : params) (L : layout) : res system :=
  let N := length (nodes L) in
  idx ← form_groups (idx L);
  let B := {| G_xx := csr_matrix N N; G_xy := csr_matrix N N;
              G_yx := csr_matrix N N; G_yy := csr_matrix N N |} in
  B ← pde_stage P (nodes L) idx B;
  B ← fixed_stage P (nodes L) idx B;
  B ← free_stage P (nodes L) (normals L) idx B;
  G_x ← hstack (G_xx B) (G_xy B);
  G_y ← hstack (G_yx B) (G_yy B);
  let G := vstack G_x G_y in
  let d_x := zeros N in
  let d_y := zeros N in
  d_x ← assign_rhs idx (force_x P) d_x PDE;
  d_x ← assign_rhs idx (force_x P) d_x Traction;
  d_x ← assign_rhs idx (force_x P) d_x Dirichlet;
  d_y ← assign_rhs idx (force_y P) d_y PDE;
  d_y ← assign_rhs idx (force_y P) d_y Traction;
  d_y ← assign_rhs idx (force_y P) d_y Dirichlet;
  Ok {| sys_blocks := B; G := G; d_x := d_x; d_y := d_y;
        d := d_x ++ d_y |}.

(** The same assembly with its knobs exposed: the order [ops] in which
    the stages write the operator, the order [rhs] in which they write the
    right-hand side, and the parameters [Pt] and normals [nt] read by the
    free-surface stage alone. *)
Definition assemble_gen (ops rhs : list stage) (Pt : params)
    (nt : list point) (P : params) (L : layout) : res system :=
  let N := length (nodes L) in
  idx ← form_groups (idx L);
  let B := {| G_xx := csr_matrix N N; G_xy := csr_matrix N N;
              G_yx := csr_matrix N N; G_yy := csr_matrix N N |} in
  B ← foldM (fun B s =>
               match s with
               | Traction => free_stage Pt (nodes L) nt idx B
               | _ => run_stage P (nodes L) (normals L) idx B s
               end) B ops;
  G_x ← hstack (G_xx B) (G_xy B);
  G_y ← hstack (G_yx B) (G_yy B);
  let G := vstack G_x G_y in
  d_x ← foldM (assign_rhs idx (force_x P)) (zeros N) rhs;
  d_y ← foldM (assign_rhs idx (force_y P)) (zeros N) rhs;
  Ok {| sys_blocks := B; G := G; d_x := d_x; d_y := d_y;
        d := d_x ++ d_y |}.

(** The orders of the script. *)
Definition script_ops : list stage := [PDE; Dirichlet; Traction].
Definition script_rhs : list stage := [PDE; Traction; Dirichlet].

(** *** Solve and strain *)

(** [spsolve] is external; a solved displacement field is any vector
    that satisfies the system. *)
Definition solves (G : matrix) (d u : list R) : Prop :=
  length u = length d /\ dot G u = d.

(** [np.reshape(u, (2, -1))] *)
Definition reshape2 {A} (u : list A) : res (list A * list A) :=
  let h := length u `div` 2 in
  if decide (length u = 2 * h) then Ok (take h u, drop h u)
  else Err ValueError.

(** From here on the arrays hold binary64 numbers.  The stencil engine
    is external here as well and is handed to the strain step as an
    argument: [stencil n p x df] lists the stored entries (column, weight)
    of the row that the size-[n] stencil of the derivative [df] at the
    point [x] contributes, in storage order. *)
Abbreviation stencil_engine :=
  (nat -> list point -> point -> diff -> list (nat * float)) (only parsing).

(** Modelled from the spec: [rbf.fd.weight_matrix] with a single
    derivative and the default coefficient, as the strain step calls it.
    One row of stored entries per evaluation point of [x]; SciPy refuses
    (with a [ValueError]) a column index outside the [length p] columns. *)
Definition derivative_matrix (stencil : stencil_engine) (x p : list point)
    (df : diff) (n : nat)
  : res (list (list (nat * float))) :=
  let rows := map (fun xk => stencil n p xk df) x in
  if decide (Forall (Forall (fun e => e.1 < length p)) rows) then Ok rows
  else Err ValueError.

(** One entry of [D.dot(u)] for a sparse [D]: the products of the stored
    entries of the row are accumulated from [0.0] in storage order. *)
Definition row_dot (r : list (nat * float)) (u : list float) : float :=
  foldl (fun acc e => (acc + e.2 * nth e.1 u 0)%float) 0%float r.

(** [D.dot(u)] for a sparse matrix with [m] columns. *)
Definition spdot (m : nat) (D : list (list (nat * float))) (u : list float)
  : res (list float) :=
  if decide (length u = m) then Ok (map (fun r => row_dot r u) D)
  else Err ValueError.

Record strains : Type := Strains {
  e_xx : list float;
  e_yy : list float;
  e_xy : list float;
  I2 : list float
}.

(** [e**2] on an array of doubles is the elementwise product [e * e]. *)
Definition square (v : float) : float := (v * v)%float.

(** "Calculate strain from displacements" *)
Definition strain (stencil : stencil_engine) (P : params) (L : layout)
    (u : list float) : res strains :=
  let N := length (nodes L) in
  uxy ← reshape2 u;
  let u_x := uxy.1 in
  let u_y := uxy.2 in
  D_x ← derivative_matrix stencil (nodes L) (nodes L) (1, 0) (n P);
  D_y ← derivative_matrix stencil (nodes L) (nodes L) (0, 1) (n P);
  e_xx ← spdot N D_x u_x;
  e_yy ← spdot N D_y u_y;
  a ← spdot N D_y u_x;
  b ← spdot N D_x u_y;
  let e_xy := map (fun s => (0.5 * s)%float) (zip_with PrimFloat.add a b) in
  let I2 := map PrimFloat.sqrt
              (zip_with PrimFloat.add
                 (zip_with PrimFloat.add (map square e_xx) (map square e_yy))
                 (map (fun v => (2 * square v)%float) e_xy)) in
  Ok {| e_xx := e_xx; e_yy := e_yy; e_xy := e_xy; I2 := I2 |}.

(** ** Specification-level views of the assembly *)

(** Writing one value into the positions [ix]. *)
Definition put_all {A} (a : list A) (ix : list nat) (v : A) : list A :=
  foldl (fun a i => <[i:=v]> a) a ix.

(** The writes of a successful [scatter], as a pure function. *)
Definition write_rows (A : matrix) (l : list (nat * row)) : matrix :=
  foldl (fun A p => <[p.1:=p.2]> A) A l.

(** The coefficient a [weight_matrix] row uses at evaluation point [k]. *)
Definition coeff_at (k : nat) (c : coeff) : R :=
  match c with
  | Scalar v => v
  | Array cs => nth k cs 0%R
  end.

Definition coeff_fits (m : nat) (c : coeff) : Prop :=
  match c with
  | Scalar _ => True
  | Array cs => length cs = m
  end.

(** The names of the four blocks. *)
Inductive block : Type := XX | XY | YX | YY.

#[global] Instance block_eq_dec : EqDecision block.
Proof. solve_decision. Defined.

Definition get_block (b : block) (B : blocks) : matrix :=
  match b with
  | XX => G_xx B
  | XY => G_xy B
  | YX => G_yx B
  | YY => G_yy B
  end.

(** The node group [k] of a layout (empty when the key is missing). *)
Definition group (L : layout) (k : string) : list nat :=
  default [] (idx L !! k).
Arguments group L k%_string.

Definition base_groups : list string :=
  ["interior"; "fixed"; "free"; "free_ghosts"].

(** The data-model invariants of a layout: the four base groups exist and
    index into the node set, and every node has a normal. *)
Record well_formed (L : layout) : Prop := {
  wf_keys : Forall (fun k => is_Some (idx L !! k)) base_groups;
  wf_range :
    Forall (fun k => Forall (fun i => i < length (nodes L)) (group L k))
           base_groups;
  wf_normals : length (normals L) = length (nodes L)
}.

(** The base groups classify the nodes: no node is listed twice, neither
    within a group nor in two groups. *)
Definition disjoint_groups (L : layout) : Prop :=
  NoDup (group L "interior" ++ group L "fixed" ++ group L "free"
         ++ group L "free_ghosts").

(** Every free node has its ghost. *)
Definition balanced (L : layout) : Prop :=
  length (group L "free") = length (group L "free_ghosts").

(** The derived groups. *)
Definition interior_free (L : layout) : list nat :=
  group L "interior" ++ group L "free".
Definition interior_ghosts (L : layout) : list nat :=
  group L "interior" ++ group L "free_ghosts".

(** The rows of a stage target, as the groups of the layout. *)
Definition targets (L : layout) (s : stage) : list nat :=
  match s with
  | PDE => interior_ghosts L
  | Dirichlet => group L "fixed"
  | Traction => group L "free"
  end.

(** The rows the three stages produce at a node with coordinates [x]
    (and outward normal [nv]), block by block. *)
Definition pde_row (P : params) (p : list point) (x : point) (b : block)
  : row :=
  weight_row (n P) p x
    match b with
    | XX => [((2, 0), (lamb P + 2 * mu P)%R); ((0, 2), mu P)]
    | XY => [((1, 1), lamb P); ((1, 1), mu P)]
    | YX => [((1, 1), mu P); ((1, 1), lamb P)]
    | YY => [((0, 2), (lamb P + 2 * mu P)%R); ((2, 0), mu P)]
    end.

Definition fixed_row (P : params) (p : list point) (x : point) : row :=
  weight_row (n P) p x [((0, 0), 1%R)].

Definition free_row (P : params) (p : list point) (x nv : point)
    (b : block) : row :=
  weight_row (n P) p x
    match b with
    | XX => [((1, 0), (nv.1 * (lamb P + 2 * mu P))%R);
             ((0, 1), (nv.2 * mu P)%R)]
    | XY => [((0, 1), (nv.1 * lamb P)%R); ((1, 0), (nv.2 * mu P)%R)]
    | YX => [((0, 1), (nv.1 * mu P)%R); ((1, 0), (nv.2 * lamb P)%R)]
    | YY => [((0, 1), (nv.2 * (lamb P + 2 * mu P))%R);
             ((1, 0), (nv.1 * mu P)%R)]
    end.

(** Node [j] of a layout and its normal. *)
Definition node (L : layout) (j : nat) : point := nth j (nodes L) (0, 0)%R.
Definition normal (L : layout) (j : nat) : point :=
  nth j (normals L) (0, 0)%R.

(** The writes of each stage into block [b], as (row index, row) pairs in
    the order they happen. *)
Definition stage_writes (P : params) (L : layout) (s : stage) (b : block)
  : list (nat * row) :=
  match s with
  | PDE =>
      zip (interior_ghosts L)
          (map (fun j => pde_row P (nodes L) (node L j) b) (interior_free L))
  | Dirichlet =>
      match b with
      | XX | YY =>
          map (fun j => (j, fixed_row P (nodes L) (node L j)))
              (group L "fixed")
      | _ => []
      end
  | Traction =>
      map (fun j => (j, free_row P (nodes L) (node L j) (normal L j) b))
          (group L "free")
  end.

Definition apply_writes (B : blocks) (W : block -> list (nat * row))
  : blocks :=
  {| G_xx := write_rows (G_xx B) (W XX); G_xy := write_rows (G_xy B) (W XY);
     G_yx := write_rows (G_yx B) (W YX); G_yy := write_rows (G_yy B) (W YY) |}.

(** The observable outcome of a run.  The script calls neither
    [warnings.warn] nor a logger of its own: it completes or raises, and
    the list of warnings handed to the caller is empty. *)
Inductive warning : Type := SingularConfiguration.

Definition run (P : params) (L : layout) : list warning * res system :=
  ([], assemble P L).

(** The rows an [enforce] call computes for the nodes [e]. *)
Definition rows_at (n : nat) (p : list point) (e : list nat)
    (diffs : list diff) (coeffs : list coeff) : matrix :=
  imap (fun k j =>
          weight_row n p (nth j p (0, 0)%R)
            (zip diffs (map (coeff_at k) coeffs))) e.

(** The dictionary the stages read agrees with the groups of the layout. *)
Definition formed (L : layout) (ix : gmap string (list nat)) : Prop :=
  ix !! "free" = Some (group L "free") /\
  ix !! "fixed" = Some (group L "fixed") /\
  ix !! "interior+free" = Some (interior_free L) /\
  ix !! "interior+ghosts" = Some (interior_ghosts L).

Definition has_rows (N : nat) (B : blocks) : Prop :=
  length (G_xx B) = N /\ length (G_xy B) = N /\
  length (G_yx B) = N /\ length (G_yy B) = N.

Definition with_normals (L : layout) (nt : list point) : layout :=
  {| nodes := nodes L; idx := idx L; normals := nt |}.

Definition gen_writes (Pt : params) (nt : list point) (P : params)
    (L : layout) (s : stage) : block -> list (nat * row) :=
  match s with
  | Traction => stage_writes Pt (with_normals L nt) Traction
  | _ => stage_writes P L s
  end.

Definition empty_blocks (N : nat) : blocks :=
  {| G_xx := csr_matrix N N; G_xy := csr_matrix N N;
     G_yx := csr_matrix N N; G_yy := csr_matrix N N |}.

Definition pure_blocks (ops : list stage) (Pt : params) (nt : list point)
    (P : params) (L : layout) : blocks :=
  foldl (fun B s => apply_writes B (gen_writes Pt nt P L s))
        (empty_blocks (length (nodes L))) ops.

Definition pure_rhs (L : layout) (v : stage -> R) (rhs : list stage)
  : list R :=
  foldl (fun d s => put_all d (targets L s) (v s))
        (zeros (length (nodes L))) rhs.

Definition stack (B : blocks) : matrix :=
  vstack (zip_with (@List.app R) (G_xx B) (G_xy B))
         (zip_with (@List.app R) (G_yx B) (G_yy B)).

Definition pure_system (ops rhs : list stage) (Pt : params)
    (nt : list point) (P : params) (L : layout) : system :=
  let B := pure_blocks ops Pt nt P L in
  let dx := pure_rhs L (force_x P) rhs in
  let dy := pure_rhs L (force_y P) rhs in
  {| sys_blocks := B; G := stack B; d_x := dx; d_y := dy; d := dx ++ dy |}.

(** The system the script assembles on a well-formed, balanced layout. *)
Definition assembled (P : params) (L : layout) : system :=
  pure_system script_ops script_rhs P (normals L) P L.

(** The identity row of node [i]: 1 on the diagonal, 0 elsewhere. *)
Definition identity_row (N i : nat) : row := <[i:=1%R]> (zeros N).

(** The stencil of the zeroth derivative at a fixed node reproduces the
    value at that node (the script: "These matrices turn out to be
    identity matrices"). *)
Definition interpolating (P : params) (L : layout) : Prop :=
  forall i j, i ∈ group L "fixed" -> j < length (nodes L) ->
    weights (n P) (nodes L) (node L i) (0, 0) j
    = if decide (i = j) then 1%R else 0%R.

(** The nodes a stage evaluates its operator at. *)
Definition evaluated (L : layout) (s : stage) : list nat :=
  match s with
  | PDE => interior_free L
  | Dirichlet => group L "fixed"
  | Traction => group L "free"
  end.

(** The rows of block [b] a stage targets: the Dirichlet stage leaves the
    cross blocks alone. *)
Definition block_targets (L : layout) (s : stage) (b : block) : list nat :=
  match s, b with
  | Dirichlet, (XY | YX) => []
  | _, _ => targets L s
  end.

(** The stages that write row [i] of block [b], in the order of the
    script. *)
Definition writers (L : layout) (b : block) (i : nat) : list stage :=
  filter (fun s => i ∈ block_targets L s b) script_ops.

(** The last position of [i] in [l]. *)
Fixpoint last_index (l : list nat) (i : nat) : option nat :=
  match l with
  | [] => None
  | a :: l' =>
      match last_index l' i with
      | Some k => Some (S k)
      | None => if decide (a = i) then Some 0 else None
      end
  end.

(** The row a stage stores in row [i] of block [b]. *)
Definition stage_row (P : params) (L : layout) (s : stage) (b : block)
    (i : nat) : row :=
  match s with
  | PDE =>
      match last_index (interior_ghosts L) i with
      | Some k => pde_row P (nodes L) (node L (nth k (interior_free L) 0)) b
      | None => zeros (length (nodes L))
      end
  | Dirichlet => fixed_row P (nodes L) (node L i)
  | Traction => free_row P (nodes L) (node L i) (normal L i) b
  end.

(** The sum of the entries of a vector. *)
Definition vsum (v : list R) : R := foldr Rplus 0%R v.

(** ** A small layout

    Four nodes on a line: one interior node, one fixed node, one free
    node and its ghost. *)
Definition toy_nodes : list point :=
  [(1, 1); (0, 1); (2, 1); (3, 1)]%R.

Definition toy_normals : list point :=
  [(0, 0); (-1, 0); (1, 0); (0, 0)]%R.

Definition toy_idx : gmap string (list nat) :=
  <["interior" := [0]]> (<["fixed" := [1]]> (<["free" := [2]]>
    (<["free_ghosts" := [3]]> ∅))).

Definition toy_layout : layout :=
  {| nodes := toy_nodes; idx := toy_idx; normals := toy_normals |}.

#[global] Instance R_eq_dec : EqDecision R := Req_dec_T.

(** A stencil engine for the examples: the zeroth derivative reproduces
    the value at the node, every other stencil weighs all nodes by one. *)
Definition toy_weights (n : nat) (p : list point) (x : point) (df : diff)
    (j : nat) : R :=
  match df with
  | (0, 0) => if decide (nth j p (0, 0)%R = x) then 1%R else 0%R
  | _ => 1%R
  end.

(** The row of node [i] in a diagonal block when the Lamé parameters
    vanish. *)
Definition pinned_row (L : layout) (i : nat) : row :=
  if decide (i ∈ group L "fixed") then identity_row (length (nodes L)) i
  else zeros (length (nodes L)).

(** Parameters with a stiffer material, for the free-surface stage. *)
Definition stiff_params : params :=
  {| n := 20; lamb := 5; mu := 3; body_force := 1 |}.

(** Vanishing Lamé parameters and body force. *)
Definition zero_params : params :=
  {| n := 20; lamb := 0; mu := 0; body_force := 0 |}.

(** A layout without fixed nodes. *)
Definition free_layout : layout :=
  {| nodes := [(1, 1); (2, 1); (3, 1)]%R;
     idx := <["interior" := [0]]> (<["fixed" := []]> (<["free" := [1]]>
              (<["free_ghosts" := [2]]> ∅)));
     normals := [(0, 0); (1, 0); (0, 0)]%R |}.

(** ** The arrays handed to the plot *)

Record plotted (A : Type) : Type := Plotted {
  plot_nodes : list point;
  plot_u_x : list A;
  plot_u_y : list A;
  plot_I2 : list A
}.
#[global] Arguments Plotted {A} _ _ _ _.
#[global] Arguments plot_nodes {A} _.
#[global] Arguments plot_u_x {A} _.
#[global] Arguments plot_u_y {A} _.
#[global] Arguments plot_I2 {A} _.

(** "toss out ghost nodes": the node coordinates, the two displacement
    components and the strain invariant, restricted to the group
    [interior+boundary]. *)
Definition toss_ghosts {A} (idx : gmap string (list nat))
    (nodes : list point) (u_x u_y I2 : list A) : res (plotted A) :=
  f ← getitem idx "free";
  let g := length f in
  k ← getitem idx "interior+boundary";
  nodes ← take_idx nodes k;
  k ← getitem idx "interior+boundary";
  u_x ← take_idx u_x k;
  k ← getitem idx "interior+boundary";
  u_y ← take_idx u_y k;
  k ← getitem idx "interior+boundary";
  I2 ← take_idx I2 k;
  Ok {| plot_nodes := nodes; plot_u_x := u_x; plot_u_y := u_y;
        plot_I2 := I2 |}.

(** The group [interior+boundary] of a layout. *)
Definition interior_boundary (L : layout) : list nat :=
  group L "interior" ++ group L "free" ++ group L "fixed".

(** A vector scaled by a number. *)
Definition scale (c : R) (v : list R) : list R := map (Rmult c) v.

(** The script after the solve: the strain fields, then the arrays for
    the plot. *)
Definition postprocess (stencil : stencil_engine) (P : params) (L : layout)
    (u : list float)
  : res (plotted float) :=
  ix ← form_groups (idx L);
  E ← strain stencil P L u;
  uxy ← reshape2 u;
  toss_ghosts ix (nodes L) uxy.1 uxy.2 (I2 E).

(** The matrix of one first derivative over the full node set, as the
    strain step builds it. *)
Definition gradient (stencil : stencil_engine) (P : params) (L : layout)
    (df : diff)
  : list (list (nat * float)) :=
  map (fun x => stencil (n P) (nodes L) x df) (nodes L).

(** The stored columns of the two first-derivative stencils lie among the
    nodes. *)
Definition stencil_fits (stencil : stencil_engine) (P : params) (L : layout)
  : Prop :=
  forall x df, x ∈ nodes L -> df ∈ [(1, 0); (0, 1)] ->
    Forall (fun e => e.1 < length (nodes L)) (stencil (n P) (nodes L) x df).

Definition apply_rows (D : list (list (nat * float))) (u : list float)
  : list float :=
  map (fun r => row_dot r u) D.

Definition shear (a b : list float) : list float :=
  map (fun s => (0.5 * s)%float) (zip_with PrimFloat.add a b).

Definition second_invariant (exx eyy exy : list float) : list float :=
  map PrimFloat.sqrt
    (zip_with PrimFloat.add
       (zip_with PrimFloat.add (map square exx) (map square eyy))
       (map (fun v => (2 * square v)%float) exy)).

(** The strain fields of a displacement vector of length 2N. *)
Definition pure_strain (stencil : stencil_engine) (P : params) (L : layout)
    (u : list float)
  : strains :=
  let N := length (nodes L) in
  let exx := apply_rows (gradient stencil P L (1, 0)) (take N u) in
  let eyy := apply_rows (gradient stencil P L (0, 1)) (drop N u) in
  let exy := shear (apply_rows (gradient stencil P L (0, 1)) (take N u))
                   (apply_rows (gradient stencil P L (1, 0)) (drop N u)) in
  {| e_xx := exx; e_yy := eyy; e_xy := exy;
     I2 := second_invariant exx eyy exy |}.

(** Stencils for the examples, the same at every point: a difference of
    two nodes for d/dx, a weighted sum of two nodes for d/dy. *)
Definition toy_stencil (n : nat) (p : list point) (x : point) (df : diff)
  : list (nat * float) :=
  match df with
  | (1, 0) => [(0, (-1)%float); (2, 1%float)]
  | (0, 1) => [(1, 0.5%float); (3, 0.25%float)]
  | _ => []
  end.

(** A displacement of the four nodes of the small layout, and the vector
    of NaNs that [spsolve] hands back for a singular system. *)
Definition toy_u : list float := [1; 2; 3; 4; 5; 2; 7; 4]%float.

Definition nan_u : list float := replicate 8 nan.

(** The small layout with one more node that no group lists. *)
Definition loose_layout : layout :=
  {| nodes := toy_nodes ++ [(4, 1)%R]; idx := toy_idx;
     normals := toy_normals ++ [(0, 0)%R] |}.

(** The parameters of the script with a doubled body force. *)
Definition heavy_params : params :=
  {| n := 20; lamb := 1; mu := 1; body_force := 2 |}.

(** The small layout with node 1 listed both as an interior and as a
    fixed node: the PDE stage and the Dirichlet stage both write row 1. *)
Definition shared_layout : layout :=
  {| nodes := toy_nodes;
     idx := <["interior" := [0; 1]]> (<["fixed" := [1]]> (<["free" := [2]]>
              (<["free_ghosts" := [3]]> ∅)));
     normals := toy_normals |}.

(** The small layout without its ghost node: one free node, no ghost. *)
Definition unbalanced_layout : layout :=
  {| nodes := toy_nodes;
     idx := <["interior" := [0]]> (<["fixed" := [1]]> (<["free" := [2]]>
              (<["free_ghosts" := []]> ∅)));
     normals := toy_normals |}.

(** A second stencil engine for the examples: the zeroth derivative
    reproduces the value at the node, the second x-derivative picks the
    value at node 0, every other stencil is empty. *)
Definition pick_weights (n : nat) (p : list point) (x : point) (df : diff)
    (j : nat) : R :=
  match df with
  | (0, 0) => if decide (nth j p (0, 0)%R = x) then 1%R else 0%R
  | (2, 0) => match j with 0 => 1%R | S _ => 0%R end
  | _ => 0%R
  end.

(** A displacement that solves the system of the small layout under
    [pick_weights]: it vanishes at the fixed node 1 and is free at the
    free node 2 and at its ghost. *)
Definition pick_u : list R := [0; 0; 2; 3; 1; 0; 4; 5]%R.

(** The small layout without its dictionary of groups. *)
Definition keyless_layout : layout :=
  {| nodes := toy_nodes; idx := ∅; normals := toy_normals |}.

(** * Properties *)

(** ** The error monad *)

Lemma bind_Ok {A B} (m : res A) (f : A -> res B) (b : B) :
  (a ← m; f a) = Ok b <-> exists a, m = Ok a /\ f a = Ok b.
Proof.
  destruct m as [a|e]; simpl; split.
  - intros H. by exists a.
  - by intros (a' & [= <-] & H).
  - discriminate.
  - by intros (a' & [=] & _).
Qed.

Ltac inv_res :=
  repeat match goal with
  | H : mbind _ _ = Ok _ |- _ =>
      let a := fresh "a" in
      let E := fresh "E" in
      apply bind_Ok in H as (a & E & H)
  | H : Ok _ = Ok _ |- _ => injection H as H
  | H : Err _ = Ok _ |- _ => discriminate H
  | H : of_option _ ?o = Ok _ |- _ =>
      destruct o eqn:?; simpl in H; [|discriminate H]
  | H : (if decide ?P then _ else _) = Ok _ |- _ =>
      destruct (decide P); [|discriminate H]
  end.

Lemma foldM_app {A S} (f : S -> A -> res S) (s : S) (l1 l2 : list A) :
  foldM f s (l1 ++ l2) = (s' ← foldM f s l1; foldM f s' l2).
Proof.
  revert s. induction l1 as [|a l1 IH]; intros s; simpl; [done|].
  destruct (f s a) as [s'|e]; simpl; [apply IH|done].
Qed.

Lemma mapM_res_total {A B} (f : A -> res B) (g : A -> B) (l : list A) :
  Forall (fun a => f a = Ok (g a)) l -> mapM_res f l = Ok (map g l).
Proof.
  induction 1 as [|a l Ha _ IH]; simpl; [done|].
  by rewrite Ha, IH.
Qed.

Lemma mapM_res_Ok {A B} (f : A -> res B) (l : list A) (bs : list B) :
  mapM_res f l = Ok bs -> Forall2 (fun a b => f a = Ok b) l bs.
Proof.
  revert bs. induction l as [|a l IH]; intros bs H; simpl in H.
  - inv_res. subst. constructor.
  - inv_res. subst. constructor; [done|]. by apply IH.
Qed.

(** ** Indexing *)

Lemma take_idx_total {A} (a : list A) (ix : list nat) (dflt : A) :
  Forall (fun i => i < length a) ix ->
  take_idx a ix = Ok (map (fun i => nth i a dflt) ix).
Proof.
  intros H. apply mapM_res_total. eapply Forall_impl; [exact H|].
  intros i Hi; simpl in *.
  destruct (lookup_lt_is_Some_2 a i Hi) as [v Hv].
  rewrite Hv; simpl. f_equal. symmetry. by apply nth_lookup_Some with (d := dflt).
Qed.

Lemma take_idx_Ok {A} (a : list A) (ix : list nat) (xs : list A) :
  take_idx a ix = Ok xs -> Forall (fun i => i < length a) ix.
Proof.
  intros H%mapM_res_Ok. induction H as [|i x ix xs Hi _ IH]; constructor; [|done].
  destruct (a !! i) eqn:E; [|discriminate]. by eapply lookup_lt_Some.
Qed.

Lemma put_all_length {A} (a : list A) ix v : length (put_all a ix v) = length a.
Proof.
  unfold put_all. revert a. induction ix as [|i ix IH]; intros a; simpl; [done|].
  by rewrite IH, length_insert.
Qed.

Lemma set_idx_total {A} (a : list A) (ix : list nat) (v : A) :
  Forall (fun i => i < length a) ix -> set_idx a ix v = Ok (put_all a ix v).
Proof.
  revert a. induction ix as [|i ix IH]; intros a H; [done|].
  apply Forall_cons in H as [Hi H]. unfold set_idx; simpl.
  rewrite decide_True by done. simpl. apply IH.
  by rewrite length_insert.
Qed.

Lemma set_idx_Ok {A} (a : list A) (ix : list nat) (v : A) (a' : list A) :
  set_idx a ix v = Ok a' -> Forall (fun i => i < length a) ix.
Proof.
  revert a. induction ix as [|i ix IH]; intros a H; [constructor|].
  unfold set_idx in H; simpl in H. inv_res. subst. constructor; [done|].
  apply IH in H. by rewrite length_insert in H.
Qed.

Lemma put_all_lookup_notin {A} (a : list A) ix v i :
  i ∉ ix -> put_all a ix v !! i = a !! i.
Proof.
  revert a. induction ix as [|j ix IH]; intros a Hi; [done|].
  apply not_elem_of_cons in Hi as [Hne Hi]. unfold put_all in *; simpl.
  rewrite IH by done. by apply list_lookup_insert_ne.
Qed.

Lemma put_all_lookup_in {A} (a : list A) ix v i :
  i ∈ ix -> i < length a -> put_all a ix v !! i = Some v.
Proof.
  revert a. induction ix as [|j ix IH]; intros a Hi Hlt;
    [by apply elem_of_nil in Hi|].
  unfold put_all in *; simpl.
  destruct (decide (i ∈ ix)) as [Hin|Hnin].
  - apply IH; [done|]. by rewrite length_insert.
  - apply elem_of_cons in Hi as [->|Hi]; [|done].
    fold (put_all (<[j:=v]> a) ix v). rewrite put_all_lookup_notin by done.
    by apply list_lookup_insert_eq.
Qed.

(** ** Scattering rows *)

Lemma write_rows_length A l : length (write_rows A l) = length A.
Proof.
  unfold write_rows. revert A.
  induction l as [|p l IH]; intros A; cbn [foldl]; [done|].
  by rewrite IH, length_insert.
Qed.

Lemma write_rows_app A l1 l2 :
  write_rows A (l1 ++ l2) = write_rows (write_rows A l1) l2.
Proof. apply foldl_app. Qed.

Lemma scatter_total A ix B :
  Forall (fun i => i < length A) ix ->
  scatter A ix B = Ok (write_rows A (zip ix B)).
Proof.
  unfold scatter, write_rows. revert A B.
  induction ix as [|i ix IH]; intros A B H; [done|].
  apply Forall_cons in H as [Hi H]. destruct B as [|r B]; [done|].
  cbn [zip zip_with foldM]. rewrite decide_True by done.
  cbn [mbind res_bind]. apply IH. by rewrite length_insert.
Qed.

Lemma scatter_Ok A ix B A' :
  scatter A ix B = Ok A' -> A' = write_rows A (zip ix B).
Proof.
  unfold scatter, write_rows. generalize (zip ix B) as l. intros l. revert A.
  induction l as [|[i r] l IH]; intros A H; simpl in H; inv_res; [done|].
  subst. by apply IH in H.
Qed.

Lemma write_rows_lookup_notin A l i :
  i ∉ l.*1 -> write_rows A l !! i = A !! i.
Proof.
  unfold write_rows. revert A. induction l as [|p l IH]; intros A Hi; [done|].
  cbn [foldl fmap list_fmap] in *. apply not_elem_of_cons in Hi as [Hne Hi].
  rewrite IH by done. by apply list_lookup_insert_ne.
Qed.

Lemma write_rows_lookup_last A l1 l2 i r :
  i ∉ l2.*1 -> i < length A ->
  write_rows A (l1 ++ (i, r) :: l2) !! i = Some r.
Proof.
  intros Hi Hlt. rewrite write_rows_app. unfold write_rows at 1; simpl.
  fold (write_rows (<[i:=r]> (write_rows A l1)) l2).
  rewrite write_rows_lookup_notin by done.
  apply list_lookup_insert_eq. by rewrite write_rows_length.
Qed.

(** When every write to a row stores the row [f i], any written row holds
    [f i], however often it is written. *)
Lemma write_rows_lookup_fun A l (f : nat -> row) i :
  Forall (fun p => p.2 = f p.1) l -> i ∈ l.*1 -> i < length A ->
  write_rows A l !! i = Some (f i).
Proof.
  unfold write_rows. revert A.
  induction l as [|p l IH]; intros A Hf Hi Hlt; [by apply elem_of_nil in Hi|].
  apply Forall_cons in Hf as [Hp Hf]. cbn [foldl fmap list_fmap] in *.
  destruct (decide (i ∈ l.*1)) as [Hin|Hnin].
  - apply IH; [done..|]. by rewrite length_insert.
  - apply elem_of_cons in Hi as [->|Hi]; [|done].
    fold (write_rows (<[p.1:=p.2]> A) l).
    rewrite write_rows_lookup_notin by done. rewrite Hp.
    by apply list_lookup_insert_eq.
Qed.

Lemma write_rows_insert_comm A l i r :
  i ∉ l.*1 -> write_rows (<[i:=r]> A) l = <[i:=r]> (write_rows A l).
Proof.
  unfold write_rows. revert A. induction l as [|p l IH]; intros A Hi; [done|].
  cbn [foldl fmap list_fmap] in *. apply not_elem_of_cons in Hi as [Hne Hi].
  rewrite (list_insert_insert_ne _ (p.1) i) by done. by apply IH.
Qed.

(** Writes to disjoint sets of rows commute. *)
Lemma write_rows_comm A l1 l2 :
  (forall i, i ∈ l1.*1 -> i ∉ l2.*1) ->
  write_rows (write_rows A l1) l2 = write_rows (write_rows A l2) l1.
Proof.
  revert A. induction l1 as [|p l1 IH]; intros A Hd; [done|].
  unfold write_rows at 2 3; cbn [foldl].
  fold (write_rows (<[p.1:=p.2]> A) l1).
  fold (write_rows (<[p.1:=p.2]> (write_rows A l2)) l1).
  rewrite IH by (intros i Hi; apply Hd; cbn [fmap list_fmap]; by right).
  rewrite write_rows_insert_comm; [done|]. apply Hd. cbn [fmap list_fmap]. by left.
Qed.

Lemma put_all_comm {A} (a : list A) ix1 ix2 v1 v2 :
  (forall i, i ∈ ix1 -> i ∉ ix2) ->
  put_all (put_all a ix1 v1) ix2 v2 = put_all (put_all a ix2 v2) ix1 v1.
Proof.
  intros Hd. apply list_eq. intros i.
  destruct (decide (i < length a)) as [Hlt|Hge].
  - destruct (decide (i ∈ ix1)) as [H1|H1]; destruct (decide (i ∈ ix2)) as [H2|H2].
    + by destruct (Hd i H1).
    + rewrite (put_all_lookup_notin _ ix2) by done.
      by rewrite !put_all_lookup_in by (rewrite ?put_all_length; done).
    + rewrite (put_all_lookup_notin _ ix1) by done.
      by rewrite !put_all_lookup_in by (rewrite ?put_all_length; done).
    + by rewrite !put_all_lookup_notin.
  - rewrite !lookup_ge_None_2; [done|rewrite !put_all_length; lia..].
Qed.

(** ** Weight matrices *)

Lemma broadcast_total m c :
  coeff_fits m c ->
  exists cs, broadcast m c = Ok cs /\ length cs = m /\
             forall k, k < m -> nth k cs 0%R = coeff_at k c.
Proof.
  destruct c as [v|cs]; simpl; intros H.
  - exists (replicate m v). split; [done|]. split; [by rewrite length_replicate|].
    intros k Hk. apply nth_lookup_Some with (d := 0%R).
    by apply lookup_replicate_2.
  - exists cs. by rewrite decide_True.
Qed.

Lemma broadcast_all_total m coeffs :
  Forall (coeff_fits m) coeffs ->
  exists css, mapM_res (broadcast m) coeffs = Ok css /\
    forall k, k < m -> map (fun c => nth k c 0%R) css = map (coeff_at k) coeffs.
Proof.
  induction 1 as [|c coeffs Hc _ (css & E & IH)]; simpl.
  - by exists [].
  - destruct (broadcast_total m c Hc) as (cs & Ec & _ & Hcs).
    exists (cs :: css). rewrite Ec, E. split; [done|].
    intros k Hk. simpl. by rewrite Hcs, IH.
Qed.

Lemma weight_matrix_total x p diffs coeffs n :
  length diffs = length coeffs ->
  Forall (coeff_fits (length x)) coeffs ->
  weight_matrix x p diffs coeffs n =
    Ok (imap (fun k xk =>
                weight_row n p xk (zip diffs (map (coeff_at k) coeffs))) x).
Proof.
  intros Hlen Hfit. unfold weight_matrix. rewrite decide_True by done.
  destruct (broadcast_all_total _ _ Hfit) as (css & -> & Hcss). simpl.
  f_equal. apply imap_ext. intros k xk Hk. simpl.
  rewrite Hcss; [done|]. by eapply lookup_lt_Some.
Qed.

Lemma rows_at_length n p e diffs coeffs :
  length (rows_at n p e diffs coeffs) = length e.
Proof. apply length_imap. Qed.

Lemma enforce_total P p ix A at_ into diffs coeffs e t :
  ix !! at_ = Some e -> ix !! into = Some t ->
  Forall (fun i => i < length p) e ->
  Forall (fun i => i < length A) t ->
  length diffs = length coeffs ->
  Forall (coeff_fits (length e)) coeffs ->
  enforce P p ix A at_ into diffs coeffs =
    if decide (length e = length t)
    then Ok (write_rows A (zip t (rows_at (n P) p e diffs coeffs)))
    else Err DimensionMismatch.
Proof.
  intros He Ht Hre Hrt Hlen Hfit. unfold enforce, getitem.
  rewrite He; simpl. rewrite (take_idx_total _ _ (0, 0)%R) by done; simpl.
  rewrite weight_matrix_total by (rewrite ?length_map; done); simpl.
  rewrite Ht; simpl. unfold add_rows.
  rewrite length_imap, length_map.
  destruct (decide (length e = length t)); [|done].
  rewrite scatter_total by done. do 2 f_equal.
  unfold rows_at. by rewrite imap_fmap.
Qed.

(** ** Node groups *)

Lemma wf_group L k :
  well_formed L -> k ∈ base_groups -> idx L !! k = Some (group L k).
Proof.
  intros [Hk _ _] Hin. rewrite Forall_forall in Hk.
  destruct (Hk k Hin) as [v Hv]. unfold group. by rewrite Hv.
Qed.

Lemma wf_group_range L k :
  well_formed L -> k ∈ base_groups ->
  Forall (fun i => i < length (nodes L)) (group L k).
Proof. intros [_ Hr _] Hin. rewrite Forall_forall in Hr. by apply Hr. Qed.

Ltac base_group := unfold base_groups; set_solver.

Lemma form_groups_total L :
  well_formed L -> exists ix, form_groups (idx L) = Ok ix /\ formed L ix.
Proof.
  intros Hwf.
  pose proof (wf_group L "interior" Hwf ltac:(base_group)) as Hi.
  pose proof (wf_group L "fixed" Hwf ltac:(base_group)) as Hx.
  pose proof (wf_group L "free" Hwf ltac:(base_group)) as Hf.
  pose proof (wf_group L "free_ghosts" Hwf ltac:(base_group)) as Hg.
  eexists. split.
  - unfold form_groups, getitem. rewrite Hi, Hf. simpl.
    rewrite !lookup_insert_ne by done. rewrite Hi, Hg. simpl.
    rewrite !lookup_insert_ne by done. rewrite Hi, Hf, Hx. simpl. done.
  - unfold formed, interior_free, interior_ghosts.
    by repeat split; simplify_map_eq.
Qed.

Lemma form_groups_Ok L ix :
  form_groups (idx L) = Ok ix ->
  Forall (fun k => is_Some (idx L !! k)) base_groups /\ formed L ix.
Proof.
  unfold form_groups, getitem. intros H. inv_res. subst.
  rewrite !lookup_insert_ne in * by done.
  repeat match goal with
         | H1 : ?o = Some ?a, H2 : ?o = Some ?b |- _ =>
             assert (a = b) by congruence; subst; clear H2
         end.
  split.
  - unfold base_groups. repeat constructor; by eexists.
  - unfold formed, interior_free, interior_ghosts, group.
    repeat split; simplify_map_eq; done.
Qed.

Lemma formed_target L ix s :
  formed L ix -> ix !! target s = Some (targets L s).
Proof. intros (? & ? & ? & ?). by destruct s. Qed.

Lemma interior_free_range L :
  well_formed L -> Forall (fun i => i < length (nodes L)) (interior_free L).
Proof.
  intros Hwf. apply Forall_app; split; apply wf_group_range; (done || base_group).
Qed.

Lemma targets_range L s :
  well_formed L -> Forall (fun i => i < length (nodes L)) (targets L s).
Proof.
  intros Hwf. destruct s; simpl; [apply Forall_app; split|..];
    apply wf_group_range; (done || base_group).
Qed.

Lemma balanced_lengths L :
  length (interior_free L) = length (interior_ghosts L) <-> balanced L.
Proof.
  unfold interior_free, interior_ghosts, balanced.
  rewrite !length_app. lia.
Qed.

(** ** The stages as pure writes *)

Lemma apply_writes_rows N B W : has_rows N B -> has_rows N (apply_writes B W).
Proof.
  intros (? & ? & ? & ?). unfold has_rows; simpl.
  by rewrite !write_rows_length.
Qed.

Lemma imap_map_ext {A B} (F : nat -> A -> B) (g : A -> B) (l : list A) :
  (forall k a, l !! k = Some a -> F k a = g a) -> imap F l = map g l.
Proof.
  intros H. rewrite <- (imap_const g). by apply imap_ext.
Qed.

Lemma zip_map_self {A B} (g : A -> B) (l : list A) :
  zip l (map g l) = map (fun a => (a, g a)) l.
Proof. induction l as [|a l IH]; simpl; [done|]. by rewrite IH. Qed.

Lemma pde_stage_total P L ix B :
  well_formed L -> formed L ix -> has_rows (length (nodes L)) B ->
  (balanced L ->
   pde_stage P (nodes L) ix B = Ok (apply_writes B (stage_writes P L PDE))) /\
  (~ balanced L -> pde_stage P (nodes L) ix B = Err DimensionMismatch).
Proof.
  intros Hwf (_ & _ & Hif & Hig) (Hxx & Hxy & Hyx & Hyy).
  pose proof (interior_free_range L Hwf) as Hre.
  pose proof (targets_range L PDE Hwf) as Hrt. simpl in Hrt.
  assert (Hen : forall A diffs c1 c2, length A = length (nodes L) ->
            length diffs = 2 ->
            enforce P (nodes L) ix A "interior+free" "interior+ghosts" diffs
              [Scalar c1; Scalar c2] =
            if decide (length (interior_free L) = length (interior_ghosts L))
            then Ok (write_rows A (zip (interior_ghosts L)
                        (rows_at (n P) (nodes L) (interior_free L) diffs
                           [Scalar c1; Scalar c2])))
            else Err DimensionMismatch).
  { intros A diffs c1 c2 HA Hd. apply enforce_total; try done.
    - by rewrite HA.
    - by repeat constructor. }
  unfold pde_stage. cbv zeta. rewrite !Hen by done.
  destruct (decide (length (interior_free L) = length (interior_ghosts L)))
    as [Hlen|Hlen]; rewrite balanced_lengths in Hlen; simpl;
    (split; intros Hb; [|done]); [|done].
  unfold apply_writes, stage_writes. do 2 f_equal;
    unfold rows_at; do 2 f_equal; by apply imap_map_ext.
Qed.

Lemma fixed_stage_total P L ix B :
  well_formed L -> formed L ix -> has_rows (length (nodes L)) B ->
  fixed_stage P (nodes L) ix B =
    Ok (apply_writes B (stage_writes P L Dirichlet)).
Proof.
  intros Hwf (_ & Hx & _ & _) (Hxx & Hxy & Hyx & Hyy).
  pose proof (targets_range L Dirichlet Hwf) as Hr. simpl in Hr.
  assert (Hen : forall A, length A = length (nodes L) ->
            enforce P (nodes L) ix A "fixed" "fixed" [(0, 0)] [Scalar 1%R] =
            Ok (write_rows A
                  (map (fun j => (j, fixed_row P (nodes L) (node L j)))
                       (group L "fixed")))).
  { intros A HA. erewrite enforce_total; try done.
    - rewrite decide_True by done. do 2 f_equal.
      rewrite <- zip_map_self. f_equal. by apply imap_map_ext.
    - by rewrite HA.
    - by repeat constructor. }
  unfold fixed_stage. cbv zeta. rewrite !Hen by done. simpl.
  unfold apply_writes; simpl. done.
Qed.

Lemma normal_coeff_total L ix (k : point -> R) (c : R) :
  well_formed L -> formed L ix ->
  normal_coeff (normals L) ix k c =
    Ok (Array (map (fun j => (k (normal L j) * c)%R) (group L "free"))).
Proof.
  intros Hwf (Hf & _ & _ & _). unfold normal_coeff, getitem.
  rewrite Hf; simpl.
  rewrite (take_idx_total _ _ (0, 0)%R).
  - simpl. by rewrite map_map.
  - rewrite (wf_normals L Hwf). apply (targets_range L Traction Hwf).
Qed.

Lemma free_stage_total P L ix B :
  well_formed L -> formed L ix -> has_rows (length (nodes L)) B ->
  free_stage P (nodes L) (normals L) ix B =
    Ok (apply_writes B (stage_writes P L Traction)).
Proof.
  intros Hwf Hform (Hxx & Hxy & Hyx & Hyy).
  pose proof Hform as (Hf & _ & _ & _).
  pose proof (targets_range L Traction Hwf) as Hr. simpl in Hr.
  assert (Hen : forall A diffs k1 c1 k2 c2 (g : point -> point -> list (diff * R)),
            length A = length (nodes L) -> length diffs = 2 ->
            (forall x nv, zip diffs [(k1 nv * c1)%R; (k2 nv * c2)%R] = g x nv) ->
            enforce P (nodes L) ix A "free" "free" diffs
              [Array (map (fun j => (k1 (normal L j) * c1)%R) (group L "free"));
               Array (map (fun j => (k2 (normal L j) * c2)%R) (group L "free"))] =
            Ok (write_rows A
                  (map (fun j => (j, weight_row (n P) (nodes L) (node L j)
                                       (g (node L j) (normal L j))))
                       (group L "free")))).
  { intros A diffs k1 c1 k2 c2 g HA Hd Hg. erewrite enforce_total; try done.
    - rewrite decide_True by done. do 2 f_equal.
      rewrite <- zip_map_self. f_equal. apply imap_map_ext.
      intros k j Hk. rewrite <- Hg. do 2 f_equal. simpl.
      assert (Hn : forall (kk : point -> R) (c : R),
                nth k (map (fun j => (kk (normal L j) * c)%R) (group L "free"))
                    0%R = (kk (normal L j) * c)%R).
      { intros kk c. apply nth_lookup_Some. by rewrite list_lookup_fmap, Hk. }
      by rewrite !Hn.
    - by rewrite HA.
    - repeat constructor; simpl; by rewrite length_map. }
  unfold free_stage. cbv zeta.
  rewrite !(normal_coeff_total L ix) by done. simpl.
  rewrite (Hen _ _ _ _ _ _ (fun x nv => _)) by done. simpl.
  rewrite (Hen _ _ _ _ _ _ (fun x nv => _)) by done. simpl.
  rewrite (Hen _ _ _ _ _ _ (fun x nv => _)) by done. simpl.
  rewrite (Hen _ _ _ _ _ _ (fun x nv => _)) by done. simpl.
  done.
Qed.

(** ** The assembly as pure writes *)

Lemma foldM_total {A S} (f : S -> A -> res S) (g : S -> A -> S)
    (Inv : S -> Prop) (s : S) (l : list A) :
  Inv s ->
  (forall s a, Inv s -> a ∈ l -> f s a = Ok (g s a) /\ Inv (g s a)) ->
  foldM f s l = Ok (foldl g s l) /\ Inv (foldl g s l).
Proof.
  revert s. induction l as [|a l IH]; intros s Hs Hf; [done|]. simpl.
  destruct (Hf s a Hs) as [-> Hs']; [by left|]. simpl.
  apply IH; [done|]. intros s1 a1 H1 Hin. apply Hf; [done|by right].
Qed.

Lemma with_normals_wf L nt :
  well_formed L -> length nt = length (nodes L) ->
  well_formed (with_normals L nt).
Proof. intros [Hk Hr Hn] Hnt. by split. Qed.

Lemma empty_blocks_rows N : has_rows N (empty_blocks N).
Proof.
  unfold has_rows, empty_blocks, csr_matrix. cbn [G_xx G_xy G_yx G_yy].
  by rewrite !length_replicate.
Qed.

Lemma gen_stage_total Pt nt P L ix B s :
  well_formed L -> length nt = length (nodes L) -> formed L ix ->
  has_rows (length (nodes L)) B -> (s = PDE -> balanced L) ->
  match s with
  | Traction => free_stage Pt (nodes L) nt ix B
  | _ => run_stage P (nodes L) (normals L) ix B s
  end = Ok (apply_writes B (gen_writes Pt nt P L s)).
Proof.
  intros Hwf Hnt Hform HB Hbal. destruct s; simpl.
  - by apply pde_stage_total; [..|apply Hbal].
  - by apply fixed_stage_total.
  - by apply (free_stage_total Pt (with_normals L nt)); [apply with_normals_wf|..].
Qed.

Lemma pure_blocks_rows ops Pt nt P L :
  has_rows (length (nodes L)) (pure_blocks ops Pt nt P L).
Proof.
  unfold pure_blocks. generalize (empty_blocks_rows (length (nodes L))).
  generalize (empty_blocks (length (nodes L))) as B. 
  induction ops as [|s ops IH]; intros B HB; [done|]. simpl.
  apply IH. by apply apply_writes_rows.
Qed.

Lemma pure_rhs_length L v rhs : length (pure_rhs L v rhs) = length (nodes L).
Proof.
  unfold pure_rhs.
  assert (H0 : length (zeros (length (nodes L))) = length (nodes L))
    by apply length_replicate.
  revert H0. generalize (zeros (length (nodes L))) as dd.
  induction rhs as [|s rhs IH]; intros dd Hd; [done|]. simpl.
  apply IH. by rewrite put_all_length.
Qed.

Lemma rhs_total L ix v rhs :
  well_formed L -> formed L ix ->
  foldM (assign_rhs ix v) (zeros (length (nodes L))) rhs
  = Ok (pure_rhs L v rhs).
Proof.
  intros Hwf Hform.
  apply (foldM_total _ (fun dd s => put_all dd (targets L s) (v s))
           (fun dd => length dd = length (nodes L))).
  - apply length_replicate.
  - intros dd s Hd _. unfold assign_rhs, getitem.
    rewrite (formed_target L ix s Hform). simpl. split.
    + apply set_idx_total. rewrite Hd. by apply targets_range.
    + by rewrite put_all_length.
Qed.

Lemma assemble_gen_total ops rhs Pt nt P L :
  well_formed L -> length nt = length (nodes L) -> balanced L ->
  assemble_gen ops rhs Pt nt P L = Ok (pure_system ops rhs Pt nt P L).
Proof.
  intros Hwf Hnt Hbal. unfold assemble_gen. cbv zeta.
  fold (empty_blocks (length (nodes L))).
  destruct (form_groups_total L Hwf) as (ix & -> & Hform).
  cbn [mbind res_bind].
  destruct (foldM_total
              (fun B s => match s with
                          | Traction => free_stage Pt (nodes L) nt ix B
                          | _ => run_stage P (nodes L) (normals L) ix B s
                          end)
              (fun B s => apply_writes B (gen_writes Pt nt P L s))
              (has_rows (length (nodes L)))
              (empty_blocks (length (nodes L))) ops) as [HB Hrows].
  - apply empty_blocks_rows.
  - intros B s HB _. split.
    + by apply gen_stage_total.
    + by apply apply_writes_rows.
  - rewrite HB. cbn [mbind res_bind].
    fold (pure_blocks ops Pt nt P L) in *.
    destruct Hrows as (Hxx & Hxy & Hyx & Hyy).
    unfold hstack. rewrite !decide_True by congruence. cbn [mbind res_bind].
    by rewrite !rhs_total.
Qed.

Lemma assemble_eq_gen P L :
  assemble P L = assemble_gen script_ops script_rhs P (normals L) P L.
Proof.
  unfold assemble, assemble_gen, script_ops, script_rhs. cbv zeta.
  destruct (form_groups (idx L)) as [ix|e]; [|done].
  cbn [mbind res_bind foldM run_stage].
  destruct (pde_stage _ _ _ _) as [B1|e]; [|done]. cbn [mbind res_bind].
  destruct (fixed_stage _ _ _ _) as [B2|e]; [|done]. cbn [mbind res_bind].
  destruct (free_stage _ _ _ _ _) as [B3|e]; [|done]. cbn [mbind res_bind].
  destruct (hstack (G_xx B3) _) as [Gx|e]; [|done]. cbn [mbind res_bind].
  destruct (hstack (G_yx B3) _) as [Gy|e]; [|done]. cbn [mbind res_bind].
  destruct (assign_rhs ix (force_x P) _ PDE) as [d1|e]; [|done].
  cbn [mbind res_bind].
  destruct (assign_rhs ix (force_x P) _ Traction) as [d2|e]; [|done].
  cbn [mbind res_bind].
  destruct (assign_rhs ix (force_x P) _ Dirichlet) as [d3|e]; [|done].
  cbn [mbind res_bind].
  destruct (assign_rhs ix (force_y P) _ PDE) as [d4|e]; [|done].
  cbn [mbind res_bind].
  destruct (assign_rhs ix (force_y P) _ Traction) as [d5|e]; [|done].
  cbn [mbind res_bind].
  destruct (assign_rhs ix (force_y P) _ Dirichlet) as [d6|e]; done.
Qed.

Lemma assemble_gen_unbalanced ops rhs Pt nt P L :
  well_formed L -> length nt = length (nodes L) -> ~ balanced L ->
  PDE ∈ ops ->
  assemble_gen ops rhs Pt nt P L = Err DimensionMismatch.
Proof.
  intros Hwf Hnt Hbal Hin. unfold assemble_gen. cbv zeta.
  fold (empty_blocks (length (nodes L))).
  destruct (form_groups_total L Hwf) as (ix & -> & Hform).
  cbn [mbind res_bind].
  apply list_elem_of_split_l in Hin as (l1 & l2 & -> & Hnin).
  rewrite foldM_app.
  destruct (foldM_total
              (fun B s => match s with
                          | Traction => free_stage Pt (nodes L) nt ix B
                          | _ => run_stage P (nodes L) (normals L) ix B s
                          end)
              (fun B s => apply_writes B (gen_writes Pt nt P L s))
              (has_rows (length (nodes L)))
              (empty_blocks (length (nodes L))) l1) as [HB Hrows].
  - apply empty_blocks_rows.
  - intros B s HB Hs. split.
    + apply gen_stage_total; try done. by intros ->.
    + by apply apply_writes_rows.
  - rewrite HB. cbn [mbind res_bind foldM run_stage].
    destruct (pde_stage_total P L ix _ Hwf Hform Hrows) as [_ ->]; done.
Qed.

Lemma assemble_total P L :
  well_formed L -> balanced L -> assemble P L = Ok (assembled P L).
Proof.
  intros Hwf Hbal. rewrite assemble_eq_gen.
  apply assemble_gen_total; [done| |done]. by destruct Hwf.
Qed.

Lemma assemble_unbalanced P L :
  well_formed L -> ~ balanced L -> assemble P L = Err DimensionMismatch.
Proof.
  intros Hwf Hbal. rewrite assemble_eq_gen.
  apply assemble_gen_unbalanced; [done| |done|].
  - by destruct Hwf.
  - unfold script_ops. set_solver.
Qed.

Lemma assemble_Ok_balanced P L S :
  well_formed L -> assemble P L = Ok S -> balanced L /\ S = assembled P L.
Proof.
  intros Hwf H.
  destruct (decide (length (group L "free") = length (group L "free_ghosts")))
    as [Hb|Hb].
  - split; [done|]. rewrite assemble_total in H by done. congruence.
  - rewrite assemble_unbalanced in H by done. discriminate.
Qed.

(** ** Rows of the assembled blocks *)

Lemma write_rows_lookup_pos A l k i r :
  l !! k = Some (i, r) ->
  (forall k' r', k < k' -> l !! k' <> Some (i, r')) ->
  i < length A ->
  write_rows A l !! i = Some r.
Proof.
  intros Hk Hlast Hlt. rewrite <- (take_drop_middle l k (i, r) Hk).
  apply write_rows_lookup_last; [|done].
  intros Hin. apply list_elem_of_fmap in Hin as ([i' r'] & Hi & Hin).
  simpl in Hi. subst i'. apply list_elem_of_lookup in Hin as [m Hm].
  rewrite lookup_drop in Hm. apply (Hlast (S k + m) r'); [lia|done].
Qed.

Lemma get_block_apply_writes b B W :
  get_block b (apply_writes B W) = write_rows (get_block b B) (W b).
Proof. by destruct b. Qed.

Lemma get_block_empty b N : get_block b (empty_blocks N) = csr_matrix N N.
Proof. by destruct b. Qed.

Lemma with_normals_id L : with_normals L (normals L) = L.
Proof. by destruct L. Qed.

Lemma assembled_block b P L :
  get_block b (sys_blocks (assembled P L)) =
    write_rows
      (write_rows
         (write_rows (csr_matrix (length (nodes L)) (length (nodes L)))
                     (stage_writes P L PDE b))
         (stage_writes P L Dirichlet b))
      (stage_writes P L Traction b).
Proof.
  unfold assembled, pure_system, pure_blocks, script_ops. cbn [sys_blocks foldl].
  rewrite !get_block_apply_writes, get_block_empty.
  unfold gen_writes. by rewrite with_normals_id.
Qed.

Lemma fst_map_pair {A B} (g : A -> B) (l : list A) :
  (map (fun a => (a, g a)) l).*1 = l.
Proof. induction l as [|a l IH]; simpl; [done|]. f_equal. exact IH. Qed.

Lemma traction_targets P L b :
  (stage_writes P L Traction b).*1 = group L "free".
Proof. apply fst_map_pair. Qed.

Lemma dirichlet_targets P L b :
  (stage_writes P L Dirichlet b).*1 =
    match b with XX | YY => group L "fixed" | _ => [] end.
Proof. destruct b; simpl; try done; apply fst_map_pair. Qed.

Lemma pde_targets P L b :
  balanced L -> (stage_writes P L PDE b).*1 = interior_ghosts L.
Proof.
  intros Hb. simpl. apply fst_zip.
  rewrite length_map. apply balanced_lengths in Hb. lia.
Qed.

Lemma csr_matrix_lookup N M i :
  i < N -> csr_matrix N M !! i = Some (zeros M).
Proof. intros Hi. by apply lookup_replicate_2. Qed.

Lemma csr_matrix_length N M : length (csr_matrix N M) = N.
Proof. apply length_replicate. Qed.

(** Rows of a free node: the traction row, whatever was there before. *)
Lemma block_row_free P L b i :
  i ∈ group L "free" -> i < length (nodes L) ->
  get_block b (sys_blocks (assembled P L)) !! i
  = Some (free_row P (nodes L) (node L i) (normal L i) b).
Proof.
  intros Hin Hlt. rewrite assembled_block.
  apply (write_rows_lookup_fun _ _
           (fun j => free_row P (nodes L) (node L j) (normal L j) b)).
  - simpl. by apply Forall_fmap, Forall_true.
  - by rewrite traction_targets.
  - by rewrite !write_rows_length, csr_matrix_length.
Qed.

(** Rows of a fixed node in the diagonal blocks. *)
Lemma block_row_fixed P L b i :
  b = XX \/ b = YY ->
  i ∉ group L "free" -> i ∈ group L "fixed" -> i < length (nodes L) ->
  get_block b (sys_blocks (assembled P L)) !! i
  = Some (fixed_row P (nodes L) (node L i)).
Proof.
  intros Hb Hnf Hin Hlt. rewrite assembled_block.
  rewrite write_rows_lookup_notin by (by rewrite traction_targets).
  apply (write_rows_lookup_fun _ _
           (fun j => fixed_row P (nodes L) (node L j))).
  - destruct Hb as [-> | ->]; simpl; by apply Forall_fmap, Forall_true.
  - rewrite dirichlet_targets. by destruct Hb as [-> | ->].
  - by rewrite !write_rows_length, csr_matrix_length.
Qed.

(** Rows no boundary stage writes: the PDE row last written there. *)
Lemma block_row_pde P L b i k j :
  i ∉ group L "free" ->
  (i ∉ group L "fixed" \/ b = XY \/ b = YX) ->
  interior_ghosts L !! k = Some i ->
  (forall k', k < k' -> interior_ghosts L !! k' <> Some i) ->
  interior_free L !! k = Some j ->
  i < length (nodes L) ->
  get_block b (sys_blocks (assembled P L)) !! i
  = Some (pde_row P (nodes L) (node L j) b).
Proof.
  intros Hnf Hnx Hk Hlast Hj Hlt. rewrite assembled_block.
  rewrite write_rows_lookup_notin by (by rewrite traction_targets).
  rewrite write_rows_lookup_notin.
  2:{ rewrite dirichlet_targets.
      destruct Hnx as [?|[-> | ->]]; [by destruct b; try apply not_elem_of_nil|..];
        apply not_elem_of_nil. }
  apply write_rows_lookup_pos with (k := k).
  - simpl. apply lookup_zip_with_Some. eexists _, _. split; [done|].
    split; [done|]. by rewrite list_lookup_fmap, Hj.
  - intros k' r' Hlt' Hk'. simpl in Hk'.
    apply lookup_zip_with_Some in Hk' as (i' & r'' & [= <- <-] & Hi' & _).
    by apply (Hlast k').
  - by rewrite csr_matrix_length.
Qed.

(** Rows no stage writes stay structurally zero. *)
Lemma block_row_zero P L b i :
  i ∉ group L "free" ->
  (i ∉ group L "fixed" \/ b = XY \/ b = YX) ->
  i ∉ interior_ghosts L ->
  i < length (nodes L) ->
  get_block b (sys_blocks (assembled P L)) !! i
  = Some (zeros (length (nodes L))).
Proof.
  intros Hnf Hnx Hng Hlt. rewrite assembled_block.
  rewrite write_rows_lookup_notin by (by rewrite traction_targets).
  rewrite write_rows_lookup_notin.
  2:{ rewrite dirichlet_targets.
      destruct Hnx as [?|[-> | ->]]; [by destruct b; try apply not_elem_of_nil|..];
        apply not_elem_of_nil. }
  rewrite write_rows_lookup_notin; [by apply csr_matrix_lookup|].
  intros Hin. apply Hng. simpl in Hin.
  apply list_elem_of_fmap in Hin as ([i' r] & -> & Hin).
  apply list_elem_of_lookup in Hin as [k Hk].
  apply lookup_zip_with_Some in Hk as (i'' & r' & [= <- <-] & Hi & _).
  simpl. by eapply list_elem_of_lookup_2.
Qed.

(** ** Disjoint groups *)

Lemma disjoint_facts L :
  disjoint_groups L ->
  NoDup (interior_ghosts L) /\ NoDup (group L "fixed") /\
  NoDup (group L "free") /\
  (forall i, i ∈ interior_ghosts L ->
             (i ∉ group L "fixed") /\ (i ∉ group L "free")) /\
  (forall i, i ∈ group L "fixed" -> i ∉ group L "free").
Proof.
  unfold disjoint_groups, interior_ghosts.
  generalize (group L "interior") (group L "fixed") (group L "free")
             (group L "free_ghosts").
  intros li lx lf lg. rewrite !NoDup_app.
  intros (Hi & Hd1 & Hx & Hd2 & Hf & Hd3 & Hg).
  split; [|split; [done|split; [done|split]]].
  - split; [done|]. split; [|done]. intros a Ha.
    specialize (Hd1 a Ha). set_solver.
  - intros a Ha. apply elem_of_app in Ha as [Ha|Ha].
    + specialize (Hd1 a Ha). set_solver.
    + split; intros Hin.
      * specialize (Hd2 a Hin). set_solver.
      * specialize (Hd3 a Hin). set_solver.
  - intros a Ha Hin. specialize (Hd2 a Ha). set_solver.
Qed.

Lemma NoDup_last_position (l : list nat) k i :
  NoDup l -> l !! k = Some i -> forall k', k < k' -> l !! k' <> Some i.
Proof.
  intros Hnd Hk k' Hlt Hk'.
  pose proof (NoDup_lookup l k k' i Hnd Hk Hk'). lia.
Qed.

Lemma lookup_range L k g i :
  well_formed L -> k ∈ base_groups -> group L k !! g = Some i ->
  i < length (nodes L).
Proof.
  intros Hwf Hk Hi. pose proof (wf_group_range L k Hwf Hk) as Hr.
  rewrite Forall_forall in Hr. apply Hr. by eapply list_elem_of_lookup_2.
Qed.

(** ** The rows of the elasticity operator *)

(** C1.  On a well-formed layout with disjoint groups, whenever the
    assembly succeeds, the node at position [k] of [interior+free] gives
    one stencil row to each of the four blocks, stored in the row at
    position [k] of [interior+ghosts]: an interior node's own row, and
    for the [m]-th free node the row of the [m]-th ghost.  The xx row is
    (lamb+2mu) d2/dx2 + mu d2/dy2, the xy and yx rows are the mixed
    derivative d2/dxdy with the coefficients lamb and mu, the yy row is
    (lamb+2mu) d2/dy2 + mu d2/dx2. *)
Theorem pde_rows_in_ghost_rows P L S :
  well_formed L -> disjoint_groups L -> assemble P L = Ok S ->
  length (interior_free L) = length (interior_ghosts L) /\
  (forall k e, interior_free L !! k = Some e ->
     exists r, interior_ghosts L !! k = Some r /\
       (k < length (group L "interior") -> r = e) /\
       (forall m, k = length (group L "interior") + m ->
          group L "free" !! m = Some e /\
          group L "free_ghosts" !! m = Some r) /\
       let x := node L e in
       let p := nodes L in
       G_xx (sys_blocks S) !! r =
         Some (weight_row (n P) p x
                 [((2, 0), (lamb P + 2 * mu P)%R); ((0, 2), mu P)]) /\
       G_xy (sys_blocks S) !! r =
         Some (weight_row (n P) p x [((1, 1), lamb P); ((1, 1), mu P)]) /\
       G_yx (sys_blocks S) !! r =
         Some (weight_row (n P) p x [((1, 1), mu P); ((1, 1), lamb P)]) /\
       G_yy (sys_blocks S) !! r =
         Some (weight_row (n P) p x
                 [((0, 2), (lamb P + 2 * mu P)%R); ((2, 0), mu P)])).
Proof.
  intros Hwf Hdis Hrun.
  destruct (assemble_Ok_balanced P L S Hwf Hrun) as [Hbal ->].
  pose proof (proj2 (balanced_lengths L) Hbal) as Hlen.
  destruct (disjoint_facts L Hdis) as (Hnd & _ & _ & Hig & _).
  split; [done|]. intros k e He.
  destruct (lookup_lt_is_Some_2 (interior_ghosts L) k) as [r Hr].
  { rewrite <- Hlen. by eapply lookup_lt_Some. }
  exists r. split; [done|].
  assert (Hrin : r ∈ interior_ghosts L) by (by eapply list_elem_of_lookup_2).
  destruct (Hig r Hrin) as [Hnx Hnf].
  assert (Hlt : r < length (nodes L)).
  { pose proof (targets_range L PDE Hwf) as Hrg. rewrite Forall_forall in Hrg.
    by apply Hrg. }
  split; [|split].
  - intros Hk. unfold interior_free, interior_ghosts in *.
    rewrite lookup_app_l in He, Hr by done. congruence.
  - intros m ->. unfold interior_free, interior_ghosts in *.
    rewrite lookup_app_r in He, Hr by lia.
    replace (length (group L "interior") + m - length (group L "interior"))
      with m in * by lia. done.
  - pose proof (fun b => block_row_pde P L b r k e Hnf (or_introl Hnx) Hr
                            (NoDup_last_position _ _ _ Hnd Hr) He Hlt) as Hb.
    cbv zeta. repeat split.
    + apply (Hb XX).
    + apply (Hb XY).
    + apply (Hb YX).
    + apply (Hb YY).
Qed.

(** ** The traction rows *)

(** C2.  Whenever the assembly succeeds on a well-formed layout, every
    free node [i] holds, in its own row [i] of each of the four blocks, a
    combination of the two first derivatives whose coefficients are the
    components of the node's normal times lamb, mu or lamb+2mu. *)
Theorem traction_rows_in_free_rows P L S i :
  well_formed L -> assemble P L = Ok S -> i ∈ group L "free" ->
  let x := node L i in
  let nx := (normal L i).1 in
  let ny := (normal L i).2 in
  let p := nodes L in
  G_xx (sys_blocks S) !! i =
    Some (weight_row (n P) p x
            [((1, 0), (nx * (lamb P + 2 * mu P))%R);
             ((0, 1), (ny * mu P)%R)]) /\
  G_xy (sys_blocks S) !! i =
    Some (weight_row (n P) p x
            [((0, 1), (nx * lamb P)%R); ((1, 0), (ny * mu P)%R)]) /\
  G_yx (sys_blocks S) !! i =
    Some (weight_row (n P) p x
            [((0, 1), (nx * mu P)%R); ((1, 0), (ny * lamb P)%R)]) /\
  G_yy (sys_blocks S) !! i =
    Some (weight_row (n P) p x
            [((0, 1), (ny * (lamb P + 2 * mu P))%R); ((1, 0), (nx * mu P)%R)]).
Proof.
  intros Hwf Hrun Hin.
  destruct (assemble_Ok_balanced P L S Hwf Hrun) as [Hbal ->].
  assert (Hlt : i < length (nodes L)).
  { pose proof (targets_range L Traction Hwf) as Hrg.
    rewrite Forall_forall in Hrg. by apply Hrg. }
  pose proof (fun b => block_row_free P L b i Hin Hlt) as Hb.
  cbv zeta. repeat split.
  - apply (Hb XX).
  - apply (Hb XY).
  - apply (Hb YX).
  - apply (Hb YY).
Qed.

(** ** Rows of weights *)

Lemma weight_row_length n p x ts : length (weight_row n p x ts) = length p.
Proof. unfold weight_row. by rewrite length_map, length_seq. Qed.

Lemma weight_row_lookup n p x ts j :
  j < length p ->
  weight_row n p x ts !! j =
    Some (foldr (fun t acc => (t.2 * weights n p x t.1 j + acc)%R) 0%R ts).
Proof.
  intros Hj. unfold weight_row.
  by rewrite list_lookup_fmap, lookup_seq_lt.
Qed.

Lemma identity_row_length N i : length (identity_row N i) = N.
Proof. unfold identity_row, zeros. by rewrite length_insert, length_replicate. Qed.

Lemma identity_row_lookup N i j :
  i < N -> j < N ->
  identity_row N i !! j = Some (if decide (i = j) then 1%R else 0%R).
Proof.
  intros Hi Hj. unfold identity_row, zeros. rewrite list_lookup_insert.
  rewrite length_replicate.
  destruct (decide (i = j)) as [->|Hne].
  - by rewrite decide_True.
  - rewrite decide_False by tauto. by apply lookup_replicate_2.
Qed.

Lemma fixed_row_identity P L i :
  interpolating P L -> i ∈ group L "fixed" -> i < length (nodes L) ->
  fixed_row P (nodes L) (node L i) = identity_row (length (nodes L)) i.
Proof.
  intros Hint Hin Hlt. apply list_eq. intros j.
  destruct (decide (j < length (nodes L))) as [Hj|Hj].
  - unfold fixed_row. rewrite weight_row_lookup, identity_row_lookup by done.
    simpl. rewrite (Hint i j Hin Hj). f_equal. lra.
  - rewrite !lookup_ge_None_2; [done|..].
    + rewrite identity_row_length. lia.
    + unfold fixed_row. rewrite weight_row_length. lia.
Qed.

(** ** The right-hand side *)

Lemma put_all_lookup {A} (a : list A) ix v i :
  i < length a ->
  put_all a ix v !! i = if decide (i ∈ ix) then Some v else a !! i.
Proof.
  intros Hlt. destruct (decide (i ∈ ix)).
  - by apply put_all_lookup_in.
  - by apply put_all_lookup_notin.
Qed.

Lemma put_all_same {A} (a : list A) ix v :
  (forall i, i ∈ ix -> i < length a -> a !! i = Some v) ->
  put_all a ix v = a.
Proof.
  intros H. apply list_eq. intros i.
  destruct (decide (i < length a)) as [Hlt|Hge].
  - rewrite put_all_lookup by done. destruct (decide (i ∈ ix)); [|done].
    symmetry. by apply H.
  - rewrite !lookup_ge_None_2; [done|rewrite ?put_all_length; lia..].
Qed.

Lemma zeros_lookup N i : i < N -> zeros N !! i = Some 0%R.
Proof. apply lookup_replicate_2. Qed.

Lemma zeros_length N : length (zeros N) = N.
Proof. apply length_replicate. Qed.

Lemma put_all_zeros N ix : put_all (zeros N) ix 0%R = zeros N.
Proof.
  apply put_all_same. intros i _ Hi. rewrite zeros_length in Hi.
  by apply zeros_lookup.
Qed.

Lemma assembled_d_x P L : d_x (assembled P L) = zeros (length (nodes L)).
Proof.
  unfold assembled, pure_system, pure_rhs, script_rhs, force_x.
  cbn [d_x foldl]. by rewrite !put_all_zeros.
Qed.

Lemma assembled_d_y P L :
  d_y (assembled P L) =
    put_all (put_all (put_all (zeros (length (nodes L)))
                        (interior_ghosts L) (body_force P))
               (group L "free") 0%R)
            (group L "fixed") 0%R.
Proof. done. Qed.

Lemma assembled_d P L :
  d (assembled P L) = d_x (assembled P L) ++ d_y (assembled P L).
Proof. done. Qed.

Lemma assembled_d_y_length P L :
  length (d_y (assembled P L)) = length (nodes L).
Proof. rewrite assembled_d_y. by rewrite !put_all_length, zeros_length. Qed.

Lemma assembled_d_y_lookup P L i :
  i < length (nodes L) ->
  d_y (assembled P L) !! i =
    Some (if decide (i ∈ group L "fixed") then 0%R
          else if decide (i ∈ group L "free") then 0%R
          else if decide (i ∈ interior_ghosts L) then body_force P
          else 0%R).
Proof.
  intros Hlt. rewrite assembled_d_y.
  rewrite put_all_lookup by (by rewrite !put_all_length, zeros_length).
  destruct (decide (i ∈ group L "fixed")); [done|].
  rewrite put_all_lookup by (by rewrite !put_all_length, zeros_length).
  destruct (decide (i ∈ group L "free")); [done|].
  rewrite put_all_lookup by (by rewrite zeros_length).
  destruct (decide (i ∈ interior_ghosts L)); [done|].
  by apply zeros_lookup.
Qed.

(** ** The Dirichlet rows *)

(** C3.  On a well-formed layout with disjoint groups and an
    interpolating stencil engine, whenever the assembly succeeds, the row
    of every fixed node is the identity row in the xx and yy blocks and
    zero in the xy and yx blocks, and the right-hand side is zero at that
    node in both halves. *)
Theorem dirichlet_rows_identity P L S i :
  well_formed L -> disjoint_groups L -> interpolating P L ->
  assemble P L = Ok S -> i ∈ group L "fixed" ->
  let N := length (nodes L) in
  G_xx (sys_blocks S) !! i = Some (identity_row N i) /\
  G_yy (sys_blocks S) !! i = Some (identity_row N i) /\
  G_xy (sys_blocks S) !! i = Some (zeros N) /\
  G_yx (sys_blocks S) !! i = Some (zeros N) /\
  d_x S !! i = Some 0%R /\ d_y S !! i = Some 0%R /\
  d S !! i = Some 0%R /\ d S !! (N + i) = Some 0%R.
Proof.
  intros Hwf Hdis Hint Hrun Hin. cbv zeta.
  destruct (assemble_Ok_balanced P L S Hwf Hrun) as [Hbal ->].
  destruct (disjoint_facts L Hdis) as (_ & _ & _ & Hig & Hxf).
  assert (Hlt : i < length (nodes L)).
  { pose proof (targets_range L Dirichlet Hwf) as Hrg.
    rewrite Forall_forall in Hrg. by apply Hrg. }
  assert (Hnf : i ∉ group L "free") by (by apply Hxf).
  assert (Hng : i ∉ interior_ghosts L).
  { intros Hg. by destruct (Hig i Hg). }
  assert (Hdx : d_x (assembled P L) !! i = Some 0%R).
  { rewrite assembled_d_x. by apply zeros_lookup. }
  assert (Hdy : d_y (assembled P L) !! i = Some 0%R).
  { rewrite assembled_d_y_lookup by done. by rewrite decide_True. }
  repeat split.
  - rewrite <- (fixed_row_identity P L i) by done.
    apply (block_row_fixed P L XX); auto.
  - rewrite <- (fixed_row_identity P L i) by done.
    apply (block_row_fixed P L YY); auto.
  - apply (block_row_zero P L XY); auto.
  - apply (block_row_zero P L YX); auto.
  - done.
  - done.
  - rewrite assembled_d, lookup_app_l; [done|].
    by rewrite assembled_d_x, zeros_length.
  - rewrite assembled_d, lookup_app_r by (rewrite assembled_d_x, zeros_length; lia).
    rewrite assembled_d_x, zeros_length.
    by replace (length (nodes L) + i - length (nodes L)) with i by lia.
Qed.

(** ** The row-assignment policy *)

Lemma last_index_None l i : last_index l i = None -> i ∉ l.
Proof.
  induction l as [|a l IH]; simpl; intros H; [apply not_elem_of_nil|].
  destruct (last_index l i); [done|]. destruct (decide (a = i)); [done|].
  apply not_elem_of_cons. split; [congruence|by apply IH].
Qed.

Lemma last_index_Some l i k :
  last_index l i = Some k ->
  l !! k = Some i /\ forall k', k < k' -> l !! k' <> Some i.
Proof.
  revert k. induction l as [|a l IH]; simpl; intros k H; [done|].
  destruct (last_index l i) as [k0|] eqn:E.
  - injection H as <-. destruct (IH k0 eq_refl) as [Hk Hlast].
    split; [done|]. intros [|k'] Hlt; [lia|]. simpl. apply Hlast. lia.
  - destruct (decide (a = i)) as [->|]; [|done]. injection H as <-.
    split; [done|]. intros [|k'] Hlt Hk'; [lia|]. simpl in Hk'.
    apply last_index_None in E. apply E. by eapply list_elem_of_lookup_2.
Qed.

Lemma block_targets_dirichlet L b i :
  i ∉ block_targets L Dirichlet b ->
  i ∉ group L "fixed" \/ b = XY \/ b = YX.
Proof. destruct b; simpl; auto. Qed.

Lemma block_targets_dirichlet_in L b i :
  i ∈ block_targets L Dirichlet b ->
  i ∈ group L "fixed" /\ (b = XX \/ b = YY).
Proof. destruct b; simpl; intros H; try (by apply elem_of_nil in H); auto. Qed.

Lemma block_targets_other L s b :
  s <> Dirichlet -> block_targets L s b = targets L s.
Proof. by destruct s, b. Qed.

Lemma block_row_last_writer P L b i :
  well_formed L -> balanced L -> i < length (nodes L) ->
  get_block b (sys_blocks (assembled P L)) !! i =
    Some (match last (writers L b i) with
          | Some s => stage_row P L s b i
          | None => zeros (length (nodes L))
          end).
Proof.
  intros Hwf Hbal Hlt. unfold writers, script_ops.
  rewrite !filter_cons, filter_nil.
  rewrite (block_targets_other L PDE), (block_targets_other L Traction) by done.
  cbn [targets].
  destruct (decide (i ∈ group L "free")) as [Hf|Hf].
  { replace (last _) with (Some Traction)
      by (repeat (destruct (decide _)); done).
    by apply block_row_free. }
  destruct (decide (i ∈ block_targets L Dirichlet b)) as [Hx|Hx].
  { replace (last _) with (Some Dirichlet)
      by (repeat (destruct (decide _)); done).
    apply block_targets_dirichlet_in in Hx as [Hx Hb].
    by apply block_row_fixed. }
  apply block_targets_dirichlet in Hx.
  destruct (decide (i ∈ interior_ghosts L)) as [Hg|Hg]; cbn [last].
  - unfold stage_row. destruct (last_index (interior_ghosts L) i) as [k|] eqn:E.
    + apply last_index_Some in E as [Hk Hlast].
      apply block_row_pde with (k := k); try done.
      destruct (nth_lookup_or_length (interior_free L) k 0) as [Hn|Hn]; [done|].
      apply lookup_lt_Some in Hk.
      rewrite (proj2 (balanced_lengths L) Hbal) in Hn. lia.
    + by apply last_index_None in E.
  - by apply block_row_zero.
Qed.

Lemma writers_at_most_one L b i :
  disjoint_groups L -> length (writers L b i) <= 1.
Proof.
  intros Hdis. destruct (disjoint_facts L Hdis) as (_ & _ & _ & Hig & Hxf).
  unfold writers, script_ops. rewrite !filter_cons, filter_nil.
  rewrite (block_targets_other L PDE), (block_targets_other L Traction) by done.
  cbn [targets].
  destruct (decide (i ∈ interior_ghosts L)) as [Hg|Hg].
  - destruct (Hig i Hg) as [Hnx Hnf].
    rewrite (decide_False (P := i ∈ group L "free")) by done.
    destruct (decide (i ∈ block_targets L Dirichlet b)) as [Hx|Hx];
      [|simpl; lia].
    apply block_targets_dirichlet_in in Hx as [Hx _]. contradiction.
  - destruct (decide (i ∈ block_targets L Dirichlet b)) as [Hx|Hx].
    + apply block_targets_dirichlet_in in Hx as [Hx _].
      rewrite (decide_False (P := i ∈ group L "free")) by (by apply Hxf).
      simpl; lia.
    + destruct (decide (i ∈ group L "free")); simpl; lia.
Qed.

(** C4.  Whenever the assembly succeeds on a well-formed layout, row [i]
    of each block holds the row stored by the last of the stages that
    target it, taken in the order PDE, Dirichlet, traction (a later write
    replaces an earlier one, nothing is summed), and stays zero when no
    stage targets it; when the groups are disjoint, no row has more than
    one such stage and no stage lists a row twice. *)
Theorem last_assignment_wins P L S :
  well_formed L -> assemble P L = Ok S ->
  (forall b i, i < length (nodes L) ->
     sublist (writers L b i) [PDE; Dirichlet; Traction] /\
     get_block b (sys_blocks S) !! i =
       Some (match last (writers L b i) with
             | Some s => stage_row P L s b i
             | None => zeros (length (nodes L))
             end)) /\
  (disjoint_groups L ->
     (forall s, NoDup (targets L s)) /\
     (forall b i, length (writers L b i) <= 1)).
Proof.
  intros Hwf Hrun.
  destruct (assemble_Ok_balanced P L S Hwf Hrun) as [Hbal ->].
  split.
  - intros b i Hlt. split.
    + apply sublist_filter.
    + by apply block_row_last_writer.
  - intros Hdis. split.
    + destruct (disjoint_facts L Hdis) as (Hg & Hx & Hf & _).
      by intros [].
    + intros b i. by apply writers_at_most_one.
Qed.

(** ** The body force *)

Lemma vsum_insert (a : list R) i v x :
  a !! i = Some x -> vsum (<[i:=v]> a) = (vsum a - x + v)%R.
Proof.
  revert i. induction a as [|y a IH]; intros [|i] H; simpl in *; try done.
  - injection H as ->. lra.
  - rewrite (IH i H). lra.
Qed.

Lemma vsum_zeros N : vsum (zeros N) = 0%R.
Proof.
  induction N as [|N IH]; simpl; [done|]. unfold zeros in IH.
  rewrite IH. lra.
Qed.

Lemma vsum_put_all_fresh (a : list R) t v :
  NoDup t -> (forall j, j ∈ t -> a !! j = Some 0%R) ->
  vsum (put_all a t v) = (vsum a + v * INR (length t))%R.
Proof.
  intros Hnd. revert a. induction Hnd as [|i t Hi Hnd IH]; intros a Ha.
  - simpl. lra.
  - unfold put_all. cbn [foldl]. fold (put_all (<[i:=v]> a) t v).
    rewrite IH.
    + rewrite (vsum_insert a i v 0%R) by (apply Ha; by left).
      cbn [length]. rewrite S_INR. lra.
    + intros j Hj. rewrite list_lookup_insert_ne by (by intros ->).
      apply Ha. by right.
Qed.

Lemma assembled_d_y_disjoint P L :
  well_formed L -> disjoint_groups L ->
  d_y (assembled P L) =
    put_all (zeros (length (nodes L))) (interior_ghosts L) (body_force P).
Proof.
  intros Hwf Hdis. destruct (disjoint_facts L Hdis) as (_ & _ & _ & Hig & _).
  rewrite assembled_d_y.
  assert (Hz : forall i, i ∉ interior_ghosts L -> i < length (nodes L) ->
            put_all (zeros (length (nodes L))) (interior_ghosts L)
                    (body_force P) !! i = Some 0%R).
  { intros i Hi Hlt. rewrite put_all_lookup_notin by done.
    by apply zeros_lookup. }
  rewrite (put_all_same _ (group L "free")).
  - apply put_all_same. intros i Hi Hlt.
    rewrite put_all_length, zeros_length in Hlt. apply Hz; [|done].
    intros Hg. by destruct (Hig i Hg).
  - intros i Hi Hlt.
    rewrite put_all_length, zeros_length in Hlt. apply Hz; [|done].
    intros Hg. by destruct (Hig i Hg).
Qed.

(** C5.  On a well-formed layout with disjoint groups, whenever the
    assembly succeeds, the right-hand side has length 2N; its x half is
    the zero vector; its y half holds the body force at the rows of
    [interior+ghosts] and zero elsewhere; and the entries of the y half
    sum to the body force times the number of rows of [interior+ghosts]
    (which lists every row once). *)
Theorem rhs_body_force P L S :
  well_formed L -> disjoint_groups L -> assemble P L = Ok S ->
  let N := length (nodes L) in
  d S = d_x S ++ d_y S /\ length (d S) = 2 * N /\
  d_x S = zeros N /\
  (forall i, i < N ->
     d_y S !! i = Some (if decide (i ∈ interior_ghosts L)
                        then body_force P else 0%R)) /\
  (forall i, i < N -> d S !! i = Some 0%R /\ d S !! (N + i) = d_y S !! i) /\
  NoDup (interior_ghosts L) /\
  vsum (d_y S) = (body_force P * INR (length (interior_ghosts L)))%R.
Proof.
  intros Hwf Hdis Hrun. cbv zeta.
  destruct (assemble_Ok_balanced P L S Hwf Hrun) as [Hbal ->].
  destruct (disjoint_facts L Hdis) as (Hnd & _ & _ & Hig & _).
  split; [done|]. split.
  { rewrite assembled_d, length_app, assembled_d_x, zeros_length,
      assembled_d_y_length. lia. }
  split; [apply assembled_d_x|]. split.
  { intros i Hlt. rewrite assembled_d_y_lookup by done.
    destruct (decide (i ∈ interior_ghosts L)) as [Hg|Hg].
    - destruct (Hig i Hg) as [Hnx Hnf]. by rewrite !decide_False.
    - by repeat destruct (decide _). }
  split.
  { intros i Hlt. rewrite assembled_d, assembled_d_x. split.
    - rewrite lookup_app_l by (by rewrite zeros_length).
      by apply zeros_lookup.
    - rewrite lookup_app_r by (rewrite zeros_length; lia).
      rewrite zeros_length. f_equal. lia. }
  split; [done|].
  rewrite assembled_d_y_disjoint by done.
  rewrite vsum_put_all_fresh; [rewrite vsum_zeros; lra|done|].
  intros j Hj. apply zeros_lookup.
  pose proof (targets_range L PDE Hwf) as Hrg. rewrite Forall_forall in Hrg.
  by apply Hrg.
Qed.

(** ** Errors and warnings *)

Lemma dirichlet_writes_nothing Pt nt P L B :
  group L "fixed" = [] ->
  apply_writes B (gen_writes Pt nt P L Dirichlet) = B.
Proof.
  intros Hx. destruct B as [xx xy yx yy].
  unfold apply_writes, gen_writes, stage_writes. rewrite Hx. reflexivity.
Qed.

Lemma pure_system_no_fixed Pt nt P L :
  group L "fixed" = [] ->
  pure_system [PDE; Traction] [PDE; Traction] Pt nt P L
  = pure_system script_ops script_rhs Pt nt P L.
Proof.
  intros Hx.
  unfold pure_system, pure_blocks, pure_rhs, script_ops, script_rhs.
  cbn [foldl]. rewrite (dirichlet_writes_nothing Pt nt P L _ Hx).
  change (targets L Dirichlet) with (group L "fixed"). rewrite Hx.
  reflexivity.
Qed.

(** C6 (as the code has it).  On a well-formed layout the assembly fails
    with [DimensionMismatch] whenever some stage produces a number of
    rows different from the size of its target group, and returns a
    system otherwise.  An empty group [fixed] is not checked: the run is
    then the run of the script without its Dirichlet stage.  No run hands
    a warning to the caller, whether the group [fixed] is empty or
    not. *)
Theorem dimension_mismatch_and_no_warning P L :
  well_formed L ->
  ((exists s, length (evaluated L s) <> length (targets L s)) ->
   assemble P L = Err DimensionMismatch) /\
  ((forall s, length (evaluated L s) = length (targets L s)) ->
   exists S, assemble P L = Ok S) /\
  (group L "fixed" = [] ->
   assemble P L
   = assemble_gen [PDE; Traction] [PDE; Traction] P (normals L) P L) /\
  (run P L).1 = [] /\ (run P L).2 = assemble P L.
Proof.
  intros Hwf. split; [|split; [|split; [|done]]].
  - intros [s Hs]. apply assemble_unbalanced; [done|].
    destruct s; simpl in Hs; [|done..].
    by rewrite balanced_lengths in Hs.
  - intros Hall. exists (assembled P L). apply assemble_total; [done|].
    apply balanced_lengths. apply (Hall PDE).
  - intros Hx.
    destruct (decide (length (group L "free")
                      = length (group L "free_ghosts"))) as [Hb|Hb].
    + rewrite assemble_total, assemble_gen_total by (done || by destruct Hwf).
      f_equal. unfold assembled. symmetry. by apply pure_system_no_fixed.
    + rewrite assemble_unbalanced by done.
      symmetry. apply assemble_gen_unbalanced; [done| |done|set_solver].
      by destruct Hwf.
Qed.

(** ** The stacked operator *)

Lemma stack_length N B : has_rows N B -> length (stack B) = 2 * N.
Proof.
  intros (Hxx & Hxy & Hyx & Hyy). unfold stack, vstack.
  rewrite length_app, !length_zip_with. lia.
Qed.

Lemma stack_lookup_x N B i a b :
  has_rows N B -> G_xx B !! i = Some a -> G_xy B !! i = Some b ->
  stack B !! i = Some (a ++ b).
Proof.
  intros (Hxx & Hxy & Hyx & Hyy) Ha Hb. unfold stack, vstack.
  rewrite lookup_app_l.
  - by rewrite lookup_zip_with, Ha, Hb.
  - rewrite length_zip_with. apply lookup_lt_Some in Ha, Hb. lia.
Qed.

Lemma stack_lookup_y N B i a b :
  has_rows N B -> G_yx B !! i = Some a -> G_yy B !! i = Some b ->
  stack B !! (N + i) = Some (a ++ b).
Proof.
  intros (Hxx & Hxy & Hyx & Hyy) Ha Hb. unfold stack, vstack.
  rewrite lookup_app_r by (rewrite length_zip_with; lia).
  rewrite length_zip_with.
  replace (N + i - length (G_xx B) `min` length (G_xy B)) with i by lia.
  by rewrite lookup_zip_with, Ha, Hb.
Qed.

Lemma block_lookup_is_Some N B b i :
  has_rows N B -> i < N -> is_Some (get_block b B !! i).
Proof.
  intros (Hxx & Hxy & Hyx & Hyy) Hlt. apply lookup_lt_is_Some_2.
  destruct b; simpl; lia.
Qed.

(** Rows of the stacked operator are decided by the rows of the blocks. *)
Lemma stack_rows_agree N B1 B2 i :
  has_rows N B1 -> has_rows N B2 -> i < N ->
  (forall b, get_block b B1 !! i = get_block b B2 !! i) ->
  stack B1 !! i = stack B2 !! i /\ stack B1 !! (N + i) = stack B2 !! (N + i).
Proof.
  intros H1 H2 Hlt Hb.
  destruct (block_lookup_is_Some N B1 XX i H1 Hlt) as [axx Hxx].
  destruct (block_lookup_is_Some N B1 XY i H1 Hlt) as [axy Hxy].
  destruct (block_lookup_is_Some N B1 YX i H1 Hlt) as [ayx Hyx].
  destruct (block_lookup_is_Some N B1 YY i H1 Hlt) as [ayy Hyy].
  pose proof (Hb XX) as Exx. pose proof (Hb XY) as Exy.
  pose proof (Hb YX) as Eyx. pose proof (Hb YY) as Eyy.
  rewrite Hxx in Exx. rewrite Hxy in Exy. rewrite Hyx in Eyx.
  rewrite Hyy in Eyy. simpl in *. split.
  - rewrite (stack_lookup_x N B1 i axx axy), (stack_lookup_x N B2 i axx axy);
      done.
  - rewrite (stack_lookup_y N B1 i ayx ayy), (stack_lookup_y N B2 i ayx ayy);
      done.
Qed.

(** ** Isolation of the free-surface stage *)

Lemma assemble_gen_Ok ops rhs Pt nt P L S :
  well_formed L -> length nt = length (nodes L) -> PDE ∈ ops ->
  assemble_gen ops rhs Pt nt P L = Ok S ->
  balanced L /\ S = pure_system ops rhs Pt nt P L.
Proof.
  intros Hwf Hnt Hin H.
  destruct (decide (length (group L "free") = length (group L "free_ghosts")))
    as [Hb|Hb].
  - split; [done|]. rewrite assemble_gen_total in H by done. congruence.
  - rewrite assemble_gen_unbalanced in H by done. discriminate.
Qed.

Lemma script_blocks_off_free Pt nt P L b i :
  i ∉ group L "free" ->
  get_block b (pure_blocks script_ops Pt nt P L) !! i =
    write_rows
      (write_rows (csr_matrix (length (nodes L)) (length (nodes L)))
                  (stage_writes P L PDE b))
      (stage_writes P L Dirichlet b) !! i.
Proof.
  intros Hnf. unfold pure_blocks, script_ops. cbn [foldl].
  rewrite !get_block_apply_writes, get_block_empty. cbn [gen_writes].
  apply write_rows_lookup_notin.
  by rewrite (traction_targets Pt (with_normals L nt) b).
Qed.

(** C7.  Two runs of the assembly on the same well-formed layout, whose
    free-surface stages read different Lamé parameters and normals
    ([Pt1], [nt1] against [Pt2], [nt2]) while everything else is shared,
    agree on every row that is not indexed by [free], in each block and
    in both halves of the stacked operator, and on the right-hand side;
    with disjoint groups the rows of [fixed] and [interior] are such
    rows.  The script is the run whose free-surface stage reads the
    shared parameters and normals. *)
Theorem free_surface_isolation P Pt1 nt1 Pt2 nt2 L S1 S2 :
  well_formed L ->
  length nt1 = length (nodes L) -> length nt2 = length (nodes L) ->
  assemble_gen script_ops script_rhs Pt1 nt1 P L = Ok S1 ->
  assemble_gen script_ops script_rhs Pt2 nt2 P L = Ok S2 ->
  let N := length (nodes L) in
  assemble P L = assemble_gen script_ops script_rhs P (normals L) P L /\
  (forall b i, i ∉ group L "free" ->
     get_block b (sys_blocks S1) !! i = get_block b (sys_blocks S2) !! i) /\
  (forall i, i < N -> i ∉ group L "free" ->
     G S1 !! i = G S2 !! i /\ G S1 !! (N + i) = G S2 !! (N + i)) /\
  d S1 = d S2 /\
  (disjoint_groups L ->
   forall i, i ∈ group L "fixed" \/ i ∈ group L "interior" ->
             i ∉ group L "free").
Proof.
  intros Hwf Hn1 Hn2 H1 H2. cbv zeta.
  assert (Hin : PDE ∈ script_ops) by (unfold script_ops; set_solver).
  destruct (assemble_gen_Ok _ _ _ _ _ _ _ Hwf Hn1 Hin H1) as [Hbal ->].
  destruct (assemble_gen_Ok _ _ _ _ _ _ _ Hwf Hn2 Hin H2) as [_ ->].
  split; [apply assemble_eq_gen|].
  assert (Hb : forall b i, i ∉ group L "free" ->
            get_block b (pure_blocks script_ops Pt1 nt1 P L) !! i =
            get_block b (pure_blocks script_ops Pt2 nt2 P L) !! i).
  { intros b i Hnf. by rewrite !script_blocks_off_free. }
  split; [exact Hb|]. split; [|split; [done|]].
  - intros i Hlt Hnf. cbn [G pure_system].
    apply stack_rows_agree; try done; try apply pure_blocks_rows.
    intros b. by apply Hb.
  - intros Hdis i [Hx|Hi].
    + destruct (disjoint_facts L Hdis) as (_ & _ & _ & _ & Hxf). by apply Hxf.
    + destruct (disjoint_facts L Hdis) as (_ & _ & _ & Hig & _).
      apply (Hig i). unfold interior_ghosts. apply elem_of_app. by left.
Qed.

(** ** Strain *)

Lemma reshape2_even {A} (u : list A) N :
  length u = 2 * N -> reshape2 u = Ok (take N u, drop N u).
Proof.
  intros Hlen. unfold reshape2.
  assert (Hdiv : length u `div` 2 = N).
  { rewrite Hlen, Nat.mul_comm. by apply Nat.div_mul. }
  rewrite Hdiv. by rewrite decide_True.
Qed.

Lemma node_lookup L i : i < length (nodes L) -> nodes L !! i = Some (node L i).
Proof.
  intros Hlt. unfold node.
  destruct (nth_lookup_or_length (nodes L) i (0, 0)%R); [done|lia].
Qed.

Lemma derivative_matrix_fits stencil P L df :
  stencil_fits stencil P L -> df ∈ [(1, 0); (0, 1)] ->
  derivative_matrix stencil (nodes L) (nodes L) df (n P)
  = Ok (gradient stencil P L df).
Proof.
  intros Hfit Hdf. unfold derivative_matrix. cbv zeta.
  rewrite decide_True; [done|].
  apply Forall_fmap, Forall_forall. intros x Hx. by apply Hfit.
Qed.

Lemma strain_total stencil P L u :
  stencil_fits stencil P L -> length u = 2 * length (nodes L) ->
  strain stencil P L u = Ok (pure_strain stencil P L u).
Proof.
  intros Hfit Hlen. unfold strain. cbv zeta.
  rewrite (reshape2_even u (length (nodes L)) Hlen).
  cbn [mbind res_bind fst snd].
  rewrite !(derivative_matrix_fits stencil P L)
    by (done || (apply elem_of_cons; by left) ||
        (apply elem_of_cons; right; by apply list_elem_of_singleton)).
  cbn [mbind res_bind]. unfold spdot.
  assert (Ht : length (take (length (nodes L)) u) = length (nodes L))
    by (rewrite length_take; lia).
  assert (Hd : length (drop (length (nodes L)) u) = length (nodes L))
    by (rewrite length_drop; lia).
  do 4 (rewrite decide_True by done; cbn [mbind res_bind]).
  reflexivity.
Qed.

Lemma apply_rows_lookup stencil P L df v i :
  i < length (nodes L) ->
  apply_rows (gradient stencil P L df) v !! i
  = Some (row_dot (stencil (n P) (nodes L) (node L i) df) v).
Proof.
  intros Hlt. unfold apply_rows, gradient.
  by rewrite !list_lookup_fmap, (node_lookup L i Hlt).
Qed.

Lemma apply_rows_length stencil P L df v :
  length (apply_rows (gradient stencil P L df) v) = length (nodes L).
Proof. unfold apply_rows, gradient. by rewrite !length_map. Qed.

Lemma second_invariant_lookup exx eyy exy i a b c :
  exx !! i = Some a -> eyy !! i = Some b -> exy !! i = Some c ->
  second_invariant exx eyy exy !! i
  = Some (PrimFloat.sqrt (a * a + b * b + 2 * (c * c))%float).
Proof.
  intros Ha Hb Hc. unfold second_invariant.
  rewrite list_lookup_fmap, !lookup_zip_with, !list_lookup_fmap.
  by rewrite Ha, Hb, Hc.
Qed.

Lemma second_invariant_length exx eyy exy N :
  length exx = N -> length eyy = N -> length exy = N ->
  length (second_invariant exx eyy exy) = N.
Proof.
  intros H1 H2 H3. unfold second_invariant.
  repeat (rewrite length_map || rewrite length_zip_with). lia.
Qed.

Lemma shear_length a b N :
  length a = N -> length b = N -> length (shear a b) = N.
Proof.
  intros H1 H2. unfold shear. rewrite length_map, length_zip_with. lia.
Qed.

(** A binary64 square root is never below zero: it is NaN, a zero or a
    positive number. *)
Lemma sqrt_never_negative (x : float) :
  (PrimFloat.sqrt x <? 0)%float = false.
Proof.
  rewrite FloatAxioms.ltb_spec, FloatAxioms.sqrt_spec.
  change (Prim2SF 0) with (S754_zero false).
  unfold SF64sqrt, SFsqrt.
  destruct (Prim2SF x) as [s| [|] | |[|] m e]; try reflexivity.
  destruct (SFsqrt_core_binary prec emax (Z.pos m) e) as [[mz ez] lz].
  unfold binary_round_aux.
  destruct (shr_fexp prec emax mz ez lz) as [mrs' e'].
  destruct (shr_fexp prec emax _ e' loc_Exact) as [mrs'' e''].
  destruct (shr_m mrs'') as [|p|p]; try reflexivity.
  destruct (e'' <=? emax - prec)%Z; reflexivity.
Qed.

Lemma sqrt_nan_or_nonneg (x : float) :
  is_nan (PrimFloat.sqrt x) = true \/ (0 <=? PrimFloat.sqrt x)%float = true.
Proof.
  unfold is_nan.
  rewrite FloatAxioms.eqb_spec, FloatAxioms.leb_spec, FloatAxioms.sqrt_spec.
  change (Prim2SF 0) with (S754_zero false).
  unfold SF64sqrt, SFsqrt.
  destruct (Prim2SF x) as [s| [|] | |[|] m e]; try (by left); try (by right).
  destruct (SFsqrt_core_binary prec emax (Z.pos m) e) as [[mz ez] lz].
  unfold binary_round_aux.
  destruct (shr_fexp prec emax mz ez lz) as [mrs' e'].
  destruct (shr_fexp prec emax _ e' loc_Exact) as [mrs'' e''].
  destruct (shr_m mrs'') as [|p|p]; try (by left); try (by right).
  destruct (e'' <=? emax - prec)%Z; by right.
Qed.

Lemma second_invariant_elem exx eyy exy v :
  v ∈ second_invariant exx eyy exy -> exists x, v = PrimFloat.sqrt x.
Proof.
  unfold second_invariant. intros Hv.
  apply list_elem_of_fmap in Hv as (y & -> & _). by exists y.
Qed.

(** C8 (as the code has it).  Let the stored columns of the two
    first-derivative stencils lie among the nodes.  For a displacement
    vector [u] of length 2N the strain post-processor returns, node by
    node and in binary64 arithmetic, e_xx = D_x u_x and e_yy = D_y u_y
    (each the products of the stored stencil entries accumulated from 0.0
    in storage order), e_xy = 0.5 * (D_y u_x + D_x u_y) and
    I2 = sqrt ((e_xx * e_xx + e_yy * e_yy) + 2 * (e_xy * e_xy)).  No entry
    of I2 is below zero: each is NaN or at least zero. *)
Theorem strain_fields stencil P L u :
  stencil_fits stencil P L ->
  length u = 2 * length (nodes L) ->
  let N := length (nodes L) in
  let u_x := take N u in
  let u_y := drop N u in
  let D_x := fun i v =>
    foldl (fun acc e => (acc + e.2 * nth e.1 v 0)%float) 0%float
          (stencil (n P) (nodes L) (node L i) (1, 0)) in
  let D_y := fun i v =>
    foldl (fun acc e => (acc + e.2 * nth e.1 v 0)%float) 0%float
          (stencil (n P) (nodes L) (node L i) (0, 1)) in
  exists E, strain stencil P L u = Ok E /\
    length (e_xx E) = N /\ length (e_yy E) = N /\
    length (e_xy E) = N /\ length (I2 E) = N /\
    (forall i, i < N ->
       let a := D_x i u_x in
       let b := D_y i u_y in
       let c := (0.5 * (D_y i u_x + D_x i u_y))%float in
       e_xx E !! i = Some a /\ e_yy E !! i = Some b /\
       e_xy E !! i = Some c /\
       I2 E !! i = Some (PrimFloat.sqrt (a * a + b * b + 2 * (c * c)))) /\
    (forall v, v ∈ I2 E ->
       (v <? 0)%float = false /\
       (is_nan v = true \/ (0 <=? v)%float = true)).
Proof.
  intros Hfit Hlen. cbv zeta.
  exists (pure_strain stencil P L u). split; [by apply strain_total|].
  unfold pure_strain. cbv zeta. cbn [e_xx e_yy e_xy I2].
  set (ux := take (length (nodes L)) u). set (uy := drop (length (nodes L)) u).
  assert (Hxy : length (shear (apply_rows (gradient stencil P L (0, 1)) ux)
                              (apply_rows (gradient stencil P L (1, 0)) uy))
                = length (nodes L))
    by (apply shear_length; apply apply_rows_length).
  split; [apply apply_rows_length|]. split; [apply apply_rows_length|].
  split; [done|].
  split; [apply second_invariant_length; [apply apply_rows_length..|done]|].
  split.
  - intros i Hlt.
    assert (Hc : shear (apply_rows (gradient stencil P L (0, 1)) ux)
                       (apply_rows (gradient stencil P L (1, 0)) uy) !! i
            = Some (0.5 * (row_dot
                             (stencil (n P) (nodes L) (node L i)
                                (0%nat, 1%nat)) ux
                           + row_dot
                               (stencil (n P) (nodes L) (node L i)
                                  (1%nat, 0%nat)) uy))%float).
    { unfold shear.
      by rewrite list_lookup_fmap, lookup_zip_with,
        !(apply_rows_lookup stencil P L _ _ i Hlt). }
    split; [by apply apply_rows_lookup|]. split; [by apply apply_rows_lookup|].
    split; [exact Hc|].
    apply second_invariant_lookup; [by apply apply_rows_lookup..|exact Hc].
  - intros v Hv. apply second_invariant_elem in Hv as [x ->].
    split; [apply sqrt_never_negative|apply sqrt_nan_or_nonneg].
Qed.

(** ** Vanishing Lamé parameters *)

Lemma weight_row_zero n p x ts :
  Forall (fun t => t.2 = 0%R) ts -> weight_row n p x ts = zeros (length p).
Proof.
  intros Hts. apply list_eq. intros j.
  destruct (decide (j < length p)) as [Hj|Hj].
  - rewrite weight_row_lookup, zeros_lookup by done. f_equal.
    induction Hts as [|t ts Ht _ IH]; simpl; [done|]. rewrite Ht, IH. lra.
  - rewrite !lookup_ge_None_2; [done|..].
    + rewrite zeros_length. lia.
    + rewrite weight_row_length. lia.
Qed.

Lemma pde_row_zero P p x b :
  lamb P = 0%R -> mu P = 0%R -> pde_row P p x b = zeros (length p).
Proof.
  intros Hl Hm. unfold pde_row. apply weight_row_zero.
  destruct b; repeat constructor; simpl; rewrite ?Hl, ?Hm; lra.
Qed.

Lemma free_row_zero P p x nv b :
  lamb P = 0%R -> mu P = 0%R -> free_row P p x nv b = zeros (length p).
Proof.
  intros Hl Hm. unfold free_row. apply weight_row_zero.
  destruct b; repeat constructor; simpl; rewrite ?Hl, ?Hm; lra.
Qed.

Lemma stage_row_zero P L s b i :
  lamb P = 0%R -> mu P = 0%R -> s <> Dirichlet ->
  stage_row P L s b i = zeros (length (nodes L)).
Proof.
  intros Hl Hm Hs. destruct s; [|done|]; simpl.
  - destruct (last_index _ _); [by apply pde_row_zero|done].
  - by apply free_row_zero.
Qed.

Lemma zero_moduli_block_row P L b i :
  well_formed L -> balanced L -> disjoint_groups L -> interpolating P L ->
  lamb P = 0%R -> mu P = 0%R -> i < length (nodes L) ->
  get_block b (sys_blocks (assembled P L)) !! i =
    Some (if decide (i ∈ group L "fixed" /\ (b = XX \/ b = YY))
          then identity_row (length (nodes L)) i
          else zeros (length (nodes L))).
Proof.
  intros Hwf Hbal Hdis Hint Hl Hm Hlt.
  destruct (disjoint_facts L Hdis) as (_ & _ & _ & _ & Hxf).
  destruct (decide (i ∈ group L "fixed" /\ (b = XX \/ b = YY))) as [[Hx Hb]|Hn].
  - rewrite <- (fixed_row_identity P L i) by done.
    apply block_row_fixed; auto.
  - rewrite block_row_last_writer by done. f_equal.
    destruct (last (writers L b i)) as [s|] eqn:E; [|done].
    apply stage_row_zero; [done..|]. intros ->.
    apply last_Some_elem_of in E. unfold writers in E.
    apply list_elem_of_filter in E as [E _].
    by apply block_targets_dirichlet_in in E.
Qed.

Lemma zero_force_rhs P L :
  body_force P = 0%R -> d (assembled P L) = zeros (2 * length (nodes L)).
Proof.
  intros Hbf. rewrite assembled_d, assembled_d_x, assembled_d_y, Hbf.
  rewrite !put_all_zeros. unfold zeros. rewrite <- replicate_add.
  f_equal. lia.
Qed.

(** *** Dot products *)

Lemma dotprod_zeros N u : dotprod (zeros N) u = 0%R.
Proof.
  revert u. induction N as [|N IH]; intros [|v u]; try done.
  unfold dotprod in *. simpl. unfold zeros in IH. rewrite IH. lra.
Qed.

Lemma dotprod_app a b u1 u2 :
  length a = length u1 ->
  dotprod (a ++ b) (u1 ++ u2) = (dotprod a u1 + dotprod b u2)%R.
Proof.
  revert u1. induction a as [|x a IH]; intros [|v u1] Hlen; try done.
  - unfold dotprod; simpl. lra.
  - simpl in Hlen. injection Hlen as Hlen. unfold dotprod in *. simpl.
    rewrite IH by done. lra.
Qed.

Lemma dotprod_identity N i u v :
  i < N -> u !! i = Some v -> dotprod (identity_row N i) u = v.
Proof.
  revert i u. induction N as [|N IH]; intros i u Hlt Hu; [lia|].
  destruct u as [|w u]; [done|]. destruct i as [|i]; simpl in Hu.
  - injection Hu as ->. unfold identity_row, dotprod. simpl.
    fold (zeros N). fold (dotprod (zeros N) u). rewrite dotprod_zeros. lra.
  - unfold identity_row, dotprod. simpl. fold (zeros N).
    fold (identity_row N i). fold (dotprod (identity_row N i) u).
    rewrite (IH i u) by (done || lia). lra.
Qed.

Lemma dot_eq_zeros M u m :
  length M = m ->
  (dot M u = zeros m <->
   forall r row, M !! r = Some row -> dotprod row u = 0%R).
Proof.
  intros Hlen. split.
  - intros H r row Hr.
    assert (Hz : dot M u !! r = Some (dotprod row u)).
    { unfold dot. by rewrite list_lookup_fmap, Hr. }
    rewrite H in Hz. apply lookup_replicate_1 in Hz as [Hz _]. done.
  - intros H. apply list_eq. intros r. unfold dot.
    rewrite list_lookup_fmap.
    destruct (M !! r) as [row|] eqn:Hr; simpl.
    + rewrite (H r row Hr). symmetry. apply zeros_lookup.
      apply lookup_lt_Some in Hr. lia.
    + symmetry. apply lookup_ge_None_2. rewrite zeros_length.
      apply lookup_ge_None_1 in Hr. lia.
Qed.

Lemma zero_moduli_rows P L i :
  well_formed L -> balanced L -> disjoint_groups L -> interpolating P L ->
  lamb P = 0%R -> mu P = 0%R -> i < length (nodes L) ->
  G (assembled P L) !! i
    = Some (pinned_row L i ++ zeros (length (nodes L))) /\
  G (assembled P L) !! (length (nodes L) + i)
    = Some (zeros (length (nodes L)) ++ pinned_row L i).
Proof.
  intros Hwf Hbal Hdis Hint Hl Hm Hlt.
  pose proof (fun b => zero_moduli_block_row P L b i Hwf Hbal Hdis Hint Hl Hm Hlt)
    as Hb.
  assert (Hrows : has_rows (length (nodes L)) (sys_blocks (assembled P L)))
    by apply pure_blocks_rows.
  assert (Hdiag : forall b, b = XX \/ b = YY ->
            get_block b (sys_blocks (assembled P L)) !! i
            = Some (pinned_row L i)).
  { intros b Hd. rewrite Hb. unfold pinned_row. f_equal.
    destruct (decide (i ∈ group L "fixed")) as [Hx|Hx].
    - by rewrite decide_True.
    - rewrite decide_False; [done|]. by intros [? _]. }
  assert (Hoff : forall b, b = XY \/ b = YX ->
            get_block b (sys_blocks (assembled P L)) !! i
            = Some (zeros (length (nodes L)))).
  { intros b Hd. rewrite Hb. rewrite decide_False; [done|].
    intros [_ [-> | ->]]; by destruct Hd. }
  split.
  - apply (stack_lookup_x (length (nodes L))); [done|..].
    + apply (Hdiag XX). by left.
    + apply (Hoff XY). by left.
  - apply (stack_lookup_y (length (nodes L))); [done|..].
    + apply (Hoff YX). by right.
    + apply (Hdiag YY). by right.
Qed.

Lemma dotprod_pinned L i v (x : R) :
  i < length (nodes L) -> v !! i = Some x ->
  dotprod (pinned_row L i) v
  = if decide (i ∈ group L "fixed") then x else 0%R.
Proof.
  intros Hlt Hv. unfold pinned_row. destruct (decide _).
  - by apply dotprod_identity.
  - apply dotprod_zeros.
Qed.

Lemma pinned_row_length L i : length (pinned_row L i) = length (nodes L).
Proof.
  unfold pinned_row. destruct (decide _);
    [apply identity_row_length|apply zeros_length].
Qed.

Lemma zero_moduli_solutions P L S u :
  well_formed L -> disjoint_groups L -> interpolating P L ->
  lamb P = 0%R -> mu P = 0%R -> body_force P = 0%R ->
  assemble P L = Ok S ->
  solves (G S) (d S) u <->
  length u = 2 * length (nodes L) /\
  forall i, i ∈ group L "fixed" ->
    u !! i = Some 0%R /\ u !! (length (nodes L) + i) = Some 0%R.
Proof.
  intros Hwf Hdis Hint Hl Hm Hbf Hrun.
  destruct (assemble_Ok_balanced P L S Hwf Hrun) as [Hbal ->].
  set (N := length (nodes L)).
  unfold solves. rewrite (zero_force_rhs P L Hbf), zeros_length. fold N.
  assert (HG : length (G (assembled P L)) = 2 * N).
  { apply stack_length. apply pure_blocks_rows. }
  rewrite (dot_eq_zeros _ _ _ HG).
  assert (Hsplit : forall a b, length u = 2 * N -> length a = N ->
            dotprod (a ++ b) u
            = (dotprod a (take N u) + dotprod b (drop N u))%R).
  { intros a b Hu Ha. rewrite <- (take_drop N u) at 1.
    apply dotprod_app. rewrite length_take. lia. }
  assert (Hx : forall i, i < N -> length u = 2 * N ->
            exists x y, u !! i = Some x /\ u !! (N + i) = Some y /\
              forall r row, (r = i \/ r = N + i) ->
                G (assembled P L) !! r = Some row ->
                dotprod row u
                = if decide (i ∈ group L "fixed")
                  then (if decide (r = i) then x else y) else 0%R).
  { intros i Hlt Hu.
    destruct (lookup_lt_is_Some_2 u i) as [x Hux]; [lia|].
    destruct (lookup_lt_is_Some_2 u (N + i)) as [y Huy]; [lia|].
    exists x, y. split; [done|]. split; [done|].
    destruct (zero_moduli_rows P L i Hwf Hbal Hdis Hint Hl Hm Hlt)
      as [Hrx Hry]. fold N in Hrx, Hry.
    intros r row [-> | ->] Hr.
    - rewrite Hrx in Hr. injection Hr as <-.
      rewrite Hsplit by (done || apply pinned_row_length).
      rewrite dotprod_zeros.
      rewrite (dotprod_pinned L i _ x) by (done || by rewrite lookup_take_lt).
      rewrite (decide_True (P := i = i)) by done.
      destruct (decide _); lra.
    - rewrite Hry in Hr. injection Hr as <-.
      rewrite Hsplit by (done || apply zeros_length).
      rewrite dotprod_zeros.
      rewrite (dotprod_pinned L i _ y) by (done || by rewrite lookup_drop).
      rewrite (decide_False (P := N + i = i)) by lia.
      destruct (decide _); lra. }
  split.
  - intros [Hu Hrows]. split; [done|]. intros i Hi.
    assert (Hlt : i < N).
    { pose proof (targets_range L Dirichlet Hwf) as Hrg.
      rewrite Forall_forall in Hrg. by apply Hrg. }
    destruct (Hx i Hlt Hu) as (x & y & Hux & Huy & Hdot).
    destruct (zero_moduli_rows P L i Hwf Hbal Hdis Hint Hl Hm Hlt)
      as [Hrx Hry]. fold N in Hrx, Hry.
    pose proof (Hdot _ _ (or_introl eq_refl) Hrx) as E1.
    pose proof (Hdot _ _ (or_intror eq_refl) Hry) as E2.
    rewrite (Hrows _ _ Hrx) in E1. rewrite (Hrows _ _ Hry) in E2.
    rewrite decide_True in E1, E2 by done.
    rewrite decide_True in E1 by done. rewrite decide_False in E2 by lia.
    by subst.
  - intros [Hu Hfix]. split; [done|]. intros r row Hr.
    assert (Hr2 : r < 2 * N) by (rewrite <- HG; by eapply lookup_lt_Some).
    assert (Hi : exists i, i < N /\ (r = i \/ r = N + i)).
    { destruct (decide (r < N)); [exists r|exists (r - N)]; lia. }
    destruct Hi as (i & Hlt & Hri).
    destruct (Hx i Hlt Hu) as (x & y & Hux & Huy & Hdot).
    rewrite (Hdot r row Hri Hr).
    destruct (decide (i ∈ group L "fixed")) as [Hin|]; [|done].
    destruct (Hfix i Hin) as [H1 H2]. rewrite Hux in H1. rewrite Huy in H2.
    destruct (decide (r = i)); congruence.
Qed.

(** C9 (as the code has it).  With vanishing Lamé parameters and body
    force, on a well-formed layout with disjoint groups and an
    interpolating stencil engine, the vectors that satisfy the assembled
    system are exactly the vectors of length 2N that vanish at both
    components of every fixed node: the zero vector is one of them, and
    the entries at the other nodes are not constrained. *)
Theorem zero_moduli_pins_fixed_nodes P L S :
  well_formed L -> disjoint_groups L -> interpolating P L ->
  lamb P = 0%R -> mu P = 0%R -> body_force P = 0%R ->
  assemble P L = Ok S ->
  let N := length (nodes L) in
  (forall u, solves (G S) (d S) u <->
     length u = 2 * N /\
     forall i, i ∈ group L "fixed" ->
       u !! i = Some 0%R /\ u !! (N + i) = Some 0%R) /\
  solves (G S) (d S) (zeros (2 * N)).
Proof.
  intros Hwf Hdis Hint Hl Hm Hbf Hrun. cbv zeta.
  pose proof (fun u => zero_moduli_solutions P L S u Hwf Hdis Hint Hl Hm Hbf Hrun)
    as Hsol.
  split; [exact Hsol|]. apply Hsol. split; [apply zeros_length|].
  intros i Hi.
  assert (Hlt : i < length (nodes L)).
  { pose proof (targets_range L Dirichlet Hwf) as Hrg.
    rewrite Forall_forall in Hrg. by apply Hrg. }
  split; apply zeros_lookup; lia.
Qed.

(** ** The order of the stages *)

Lemma foldl_comm_perm {A S} (g : S -> A -> S) (l l' : list A) :
  (forall s a b, g (g s a) b = g (g s b) a) ->
  l ≡ₚ l' -> forall s, foldl g s l = foldl g s l'.
Proof.
  intros Hcomm Hperm.
  induction Hperm as [|a l l' _ IH|a b l|l1 l2 l3 _ IH1 _ IH2]; intros s.
  - done.
  - simpl. apply IH.
  - simpl. by rewrite Hcomm.
  - by rewrite IH1, IH2.
Qed.

Lemma targets_disjoint L s1 s2 i :
  disjoint_groups L -> s1 <> s2 -> i ∈ targets L s1 -> i ∉ targets L s2.
Proof.
  intros Hdis Hne H1 H2.
  destruct (disjoint_facts L Hdis) as (_ & _ & _ & Hig & Hxf).
  destruct s1, s2; simpl in *; try done.
  - by destruct (Hig i H1).
  - by destruct (Hig i H1).
  - by destruct (Hig i H2).
  - by apply (Hxf i H1).
  - by destruct (Hig i H2).
  - by apply (Hxf i H2).
Qed.

Lemma targets_NoDup L :
  disjoint_groups L ->
  NoDup (targets L PDE ++ targets L Dirichlet ++ targets L Traction).
Proof.
  intros Hdis. destruct (disjoint_facts L Hdis) as (Hg & Hx & Hf & Hig & Hxf).
  simpl. apply NoDup_app. split; [done|]. split.
  - intros i Hi Hin. destruct (Hig i Hi) as [Hnx Hnf].
    apply elem_of_app in Hin as [?|?]; done.
  - apply NoDup_app. split; [done|]. split; [|done]. exact Hxf.
Qed.

Lemma gen_writes_targets Pt nt P L s b i :
  i ∈ (gen_writes Pt nt P L s b).*1 -> i ∈ targets L s.
Proof.
  destruct s; cbn [gen_writes targets].
  - cbn [stage_writes].
    intros Hin. apply list_elem_of_fmap in Hin as ([i' r] & -> & Hin).
    apply list_elem_of_lookup in Hin as [k Hk].
    apply lookup_zip_with_Some in Hk as (i'' & r' & [= <- <-] & Hi & _).
    simpl. by eapply list_elem_of_lookup_2.
  - rewrite (dirichlet_targets P L b). destruct b; try done;
      intros H; by apply elem_of_nil in H.
  - by rewrite (traction_targets Pt (with_normals L nt) b).
Qed.

Lemma apply_writes_comm Pt nt P L B s1 s2 :
  disjoint_groups L ->
  apply_writes (apply_writes B (gen_writes Pt nt P L s1))
               (gen_writes Pt nt P L s2)
  = apply_writes (apply_writes B (gen_writes Pt nt P L s2))
                 (gen_writes Pt nt P L s1).
Proof.
  intros Hdis. destruct (decide (s1 = s2)) as [->|Hne]; [done|].
  assert (Hd : forall b i, i ∈ (gen_writes Pt nt P L s1 b).*1 ->
                 i ∉ (gen_writes Pt nt P L s2 b).*1).
  { intros b i H1 H2. apply gen_writes_targets in H1, H2.
    by apply (targets_disjoint L s1 s2 i). }
  unfold apply_writes; cbn [G_xx G_xy G_yx G_yy].
  f_equal; apply write_rows_comm; apply Hd.
Qed.

Lemma rhs_assign_comm L (v : stage -> R) (dd : list R) s1 s2 :
  disjoint_groups L ->
  put_all (put_all dd (targets L s1) (v s1)) (targets L s2) (v s2)
  = put_all (put_all dd (targets L s2) (v s2)) (targets L s1) (v s1).
Proof.
  intros Hdis. destruct (decide (s1 = s2)) as [->|Hne]; [done|].
  apply put_all_comm. intros i. by apply targets_disjoint.
Qed.

Lemma pure_system_perm ops ops' rhs rhs' Pt nt P L :
  disjoint_groups L -> ops ≡ₚ ops' -> rhs ≡ₚ rhs' ->
  pure_system ops rhs Pt nt P L = pure_system ops' rhs' Pt nt P L.
Proof.
  intros Hdis Hops Hrhs. unfold pure_system, pure_blocks, pure_rhs.
  rewrite (foldl_comm_perm _ ops ops') by
    (done || (intros; by apply apply_writes_comm)).
  rewrite !(foldl_comm_perm _ rhs rhs') by
    (done || (intros; by apply rhs_assign_comm)).
  done.
Qed.

(** C10.  On a well-formed layout with disjoint groups the three target
    sets of the assembly list every row at most once between them, no row
    of any block has more than one stage writing it, and running the
    stages in any order, for the operator and for the right-hand side,
    gives what the script gives: the same system, or the same error. *)
Theorem stage_order_irrelevant P L ops rhs :
  well_formed L -> disjoint_groups L ->
  ops ≡ₚ script_ops -> rhs ≡ₚ script_rhs ->
  NoDup (targets L PDE ++ targets L Dirichlet ++ targets L Traction) /\
  (forall b i, length (writers L b i) <= 1) /\
  assemble_gen ops rhs P (normals L) P L = assemble P L.
Proof.
  intros Hwf Hdis Hops Hrhs.
  split; [by apply targets_NoDup|].
  split; [intros b i; by apply writers_at_most_one|].
  assert (Hn : length (normals L) = length (nodes L)) by (by destruct Hwf).
  destruct (decide (length (group L "free") = length (group L "free_ghosts")))
    as [Hb|Hb].
  - rewrite assemble_gen_total, assemble_total by done. f_equal.
    by apply pure_system_perm.
  - rewrite assemble_unbalanced by done.
    apply assemble_gen_unbalanced; try done.
    rewrite Hops. unfold script_ops. set_solver.
Qed.

(** * Further properties of the script *)

(** ** The derived node groups *)

(** X1.  When the derived groups can be formed, each is the concatenation
    of its constituents (so its members are exactly the members of the
    union), and every other key of the dictionary, the base groups
    included, is left as it was. *)
Theorem form_groups_unions (idx0 ix : gmap string (list nat)) :
  form_groups idx0 = Ok ix ->
  exists i x f g,
    idx0 !! "interior" = Some i /\ idx0 !! "fixed" = Some x /\
    idx0 !! "free" = Some f /\ idx0 !! "free_ghosts" = Some g /\
    ix !! "interior+free" = Some (i ++ f) /\
    ix !! "interior+ghosts" = Some (i ++ g) /\
    ix !! "interior+boundary" = Some (i ++ f ++ x) /\
    (forall k, k ∉ ["interior+free"; "interior+ghosts"; "interior+boundary"] ->
               ix !! k = idx0 !! k) /\
    (forall j, (j ∈ i ++ f <-> j ∈ i \/ j ∈ f) /\
               (j ∈ i ++ g <-> j ∈ i \/ j ∈ g) /\
               (j ∈ i ++ f ++ x <-> j ∈ i \/ j ∈ f \/ j ∈ x)).
Proof.
  unfold form_groups, getitem. intros H. inv_res. subst.
  rewrite !lookup_insert_ne in * by done.
  repeat match goal with
         | H1 : ?o = Some ?a, H2 : ?o = Some ?b |- _ =>
             assert (a = b) by congruence; subst; clear H2
         end.
  eexists _, _, _, _. repeat split; try eassumption.
  - by simplify_map_eq.
  - by simplify_map_eq.
  - by simplify_map_eq.
  - intros k Hk. rewrite !not_elem_of_cons in Hk.
    destruct Hk as (? & ? & ? & _). by rewrite !lookup_insert_ne.
  - by rewrite elem_of_app.
  - by rewrite elem_of_app.
  - by rewrite elem_of_app.
  - by rewrite elem_of_app.
  - by rewrite !elem_of_app.
  - by rewrite !elem_of_app.
Qed.

(** X2.  Forming the derived groups fails exactly when one of the four
    base groups is missing from the dictionary, and then with a
    [KeyError]; the assembly fails with the same error before it builds
    anything. *)
Theorem missing_group_key_error P L :
  (exists k, k ∈ base_groups /\ idx L !! k = None) <->
  form_groups (idx L) = Err KeyError /\ assemble P L = Err KeyError.
Proof.
  split.
  - intros (k & Hk & Hnone).
    assert (Hf : form_groups (idx L) = Err KeyError).
    { unfold form_groups, getitem.
      destruct (idx L !! "interior") as [i|] eqn:Ei; [|done].
      destruct (idx L !! "free") as [f|] eqn:Ef; [|done]. simpl.
      rewrite !lookup_insert_ne by done. rewrite Ei. simpl.
      destruct (idx L !! "free_ghosts") as [g|] eqn:Eg; [|done]. simpl.
      rewrite !lookup_insert_ne by done. rewrite Ei, Ef. simpl.
      destruct (idx L !! "fixed") as [x|] eqn:Ex; [|done].
      unfold base_groups in Hk.
      repeat (apply elem_of_cons in Hk as [-> | Hk]; [congruence|]).
      by apply elem_of_nil in Hk. }
    split; [done|]. unfold assemble. cbv zeta. by rewrite Hf.
  - intros [Hf _].
    destruct (decide (Forall (fun k => is_Some (idx L !! k)) base_groups))
      as [Hall|Hnot].
    + destruct (idx L !! "interior") as [i|] eqn:Ei;
        [|rewrite Forall_forall in Hall;
          destruct (Hall "interior" ltac:(base_group)); congruence].
      destruct (idx L !! "free") as [f|] eqn:Ef;
        [|rewrite Forall_forall in Hall;
          destruct (Hall "free" ltac:(base_group)); congruence].
      destruct (idx L !! "free_ghosts") as [g|] eqn:Eg;
        [|rewrite Forall_forall in Hall;
          destruct (Hall "free_ghosts" ltac:(base_group)); congruence].
      destruct (idx L !! "fixed") as [x|] eqn:Ex;
        [|rewrite Forall_forall in Hall;
          destruct (Hall "fixed" ltac:(base_group)); congruence].
      unfold form_groups, getitem in Hf. rewrite Ei, Ef in Hf. simpl in Hf.
      rewrite !lookup_insert_ne in Hf by done. rewrite Ei, Eg in Hf.
      simpl in Hf. rewrite !lookup_insert_ne in Hf by done.
      rewrite Ei, Ef, Ex in Hf. discriminate.
    + apply not_Forall_Exists in Hnot; [|apply _].
      apply Exists_exists in Hnot as (k & Hk & Hn).
      exists k. split; [done|]. by apply eq_None_not_Some.
Qed.

(** ** What a successful assembly says about the layout *)

Lemma take_idx_length {A} (a : list A) (ix : list nat) (xs : list A) :
  take_idx a ix = Ok xs -> length xs = length ix.
Proof. intros H%mapM_res_Ok. symmetry. by eapply Forall2_length. Qed.

Lemma weight_matrix_Ok_length x p diffs coeffs n D :
  weight_matrix x p diffs coeffs n = Ok D -> length D = length x.
Proof.
  unfold weight_matrix. intros H. inv_res. subst. apply length_imap.
Qed.

Lemma enforce_Ok P p ix A at_ into diffs coeffs A' :
  enforce P p ix A at_ into diffs coeffs = Ok A' ->
  exists e t, ix !! at_ = Some e /\ ix !! into = Some t /\
    Forall (fun i => i < length p) e /\ length e = length t.
Proof.
  unfold enforce, getitem, add_rows. intros H. inv_res.
  subst. eexists _, _. split; [done|]. split; [done|]. split.
  - by eapply take_idx_Ok.
  - erewrite <- take_idx_length by done.
    erewrite <- weight_matrix_Ok_length by done. done.
Qed.

Lemma set_idx_length {A} (a : list A) ix v a' :
  set_idx a ix v = Ok a' -> length a' = length a.
Proof.
  intros H. pose proof (set_idx_Ok _ _ _ _ H) as Hr.
  rewrite set_idx_total in H by done. injection H as <-.
  apply put_all_length.
Qed.

Lemma assign_rhs_Ok L ix v dd s dd' :
  formed L ix -> assign_rhs ix v dd s = Ok dd' ->
  Forall (fun i => i < length dd) (targets L s) /\ length dd' = length dd.
Proof.
  intros Hform. unfold assign_rhs, getitem.
  rewrite (formed_target L ix s Hform). simpl. intros H. split.
  - by eapply set_idx_Ok.
  - by eapply set_idx_length.
Qed.

(** X3.  The assembly returns a system only for a layout whose four base
    groups exist and index into the node set, whose free nodes all have a
    normal, and which has as many ghosts as free nodes. *)
Theorem assemble_Ok_layout P L S :
  assemble P L = Ok S ->
  Forall (fun k => is_Some (idx L !! k)) base_groups /\
  Forall (fun k => Forall (fun i => i < length (nodes L)) (group L k))
         base_groups /\
  Forall (fun i => i < length (normals L)) (group L "free") /\
  balanced L.
Proof.
  unfold assemble. cbv zeta. intros H.
  apply bind_Ok in H as (ix & Hix & H).
  destruct (form_groups_Ok L ix Hix) as [Hkeys Hform].
  apply bind_Ok in H as (B1 & Hpde & H).
  apply bind_Ok in H as (B2 & Hfix & H).
  apply bind_Ok in H as (B3 & Hfree & H).
  apply bind_Ok in H as (Gx & _ & H). apply bind_Ok in H as (Gy & _ & H).
  apply bind_Ok in H as (d1 & Hd1 & H). apply bind_Ok in H as (d2 & Hd2 & H).
  apply bind_Ok in H as (d3 & Hd3 & _).
  destruct (assign_rhs_Ok L ix _ _ _ _ Hform Hd1) as [Hr1 Hl1].
  destruct (assign_rhs_Ok L ix _ _ _ _ Hform Hd2) as [Hr2 Hl2].
  destruct (assign_rhs_Ok L ix _ _ _ _ Hform Hd3) as [Hr3 _].
  rewrite Hl2, Hl1 in Hr3. rewrite Hl1 in Hr2.
  rewrite zeros_length in Hr1, Hr2, Hr3. simpl in Hr1, Hr2, Hr3.
  unfold interior_ghosts in Hr1. apply Forall_app in Hr1 as [Hri Hrg].
  split; [done|]. split; [|split].
  - unfold base_groups. by repeat constructor.
  - unfold free_stage in Hfree. cbv zeta in Hfree.
    apply bind_Ok in Hfree as (c & Hc & _).
    unfold normal_coeff, getitem in Hc.
    destruct Hform as (Hf & _). rewrite Hf in Hc. simpl in Hc.
    apply bind_Ok in Hc as (nf & Hnf & _). by eapply take_idx_Ok.
  - unfold pde_stage in Hpde. cbv zeta in Hpde.
    apply bind_Ok in Hpde as (xx & Hxx & _).
    apply enforce_Ok in Hxx as (e & t & He & Ht & _ & Hlen).
    destruct Hform as (_ & _ & Hif & Hig).
    rewrite Hif in He. rewrite Hig in Ht.
    injection He as <-. injection Ht as <-.
    by apply balanced_lengths.
Qed.

(** ** The shape of the system *)

Lemma write_rows_Forall (Q : list R -> Prop) A l :
  Forall Q A -> Forall (fun p => Q p.2) l -> Forall Q (write_rows A l).
Proof.
  unfold write_rows. revert A.
  induction l as [|p l IH]; intros A HA Hl; [done|].
  apply Forall_cons in Hl as [Hp Hl]. cbn [foldl].
  apply IH; [|done]. by apply Forall_insert.
Qed.

Lemma stage_writes_row_length P L s b :
  Forall (fun p => length p.2 = length (nodes L)) (stage_writes P L s b).
Proof.
  destruct s; cbn [stage_writes].
  - apply Forall_forall. intros [i r] Hin.
    apply list_elem_of_lookup in Hin as [k Hk].
    apply lookup_zip_with_Some in Hk as (i' & r' & [= <- <-] & _ & Hr).
    rewrite list_lookup_fmap in Hr.
    destruct (interior_free L !! k) as [j|]; [|done].
    injection Hr as <-. apply weight_row_length.
  - destruct b; try apply Forall_nil_2;
      apply Forall_fmap, Forall_true; intros j; apply weight_row_length.
  - apply Forall_fmap, Forall_true. intros j. apply weight_row_length.
Qed.

Lemma csr_matrix_rows N M : Forall (fun r => length r = M) (csr_matrix N M).
Proof. apply Forall_replicate. apply zeros_length. Qed.

Lemma assembled_block_rows P L b :
  Forall (fun r => length r = length (nodes L))
         (get_block b (sys_blocks (assembled P L))).
Proof.
  rewrite assembled_block.
  repeat apply write_rows_Forall; try apply stage_writes_row_length.
  apply csr_matrix_rows.
Qed.

Lemma stack_rows N B :
  (forall b, Forall (fun r => length r = N) (get_block b B)) ->
  Forall (fun r => length r = 2 * N) (stack B).
Proof.
  intros Hb. unfold stack, vstack.
  assert (Hz : forall A1 A2 : list (list R),
            Forall (fun r => length r = N) A1 ->
            Forall (fun r => length r = N) A2 ->
            Forall (fun r => length r = 2 * N) (zip_with (@List.app R) A1 A2)).
  { intros A1 A2 H1 H2. apply Forall_lookup. intros k r Hk.
    apply lookup_zip_with_Some in Hk as (a & b & -> & Ha & Hb').
    rewrite Forall_lookup in H1, H2.
    rewrite length_app, (H1 k a Ha), (H2 k b Hb'). lia. }
  apply Forall_app. split.
  - apply Hz; [apply (Hb XX)|apply (Hb XY)].
  - apply Hz; [apply (Hb YX)|apply (Hb YY)].
Qed.

(** X4.  On a well-formed layout a successful assembly returns a square
    system: each block has N rows of N entries, the stacked operator has
    2N rows of 2N entries, and the right-hand side has 2N entries. *)
Theorem system_is_square P L S :
  well_formed L -> assemble P L = Ok S ->
  let N := length (nodes L) in
  (forall b, length (get_block b (sys_blocks S)) = N /\
             Forall (fun r => length r = N) (get_block b (sys_blocks S))) /\
  length (G S) = 2 * N /\ Forall (fun r => length r = 2 * N) (G S) /\
  length (d S) = 2 * N.
Proof.
  intros Hwf Hrun. cbv zeta.
  destruct (assemble_Ok_balanced P L S Hwf Hrun) as [Hbal ->].
  assert (Hrows : has_rows (length (nodes L)) (sys_blocks (assembled P L)))
    by apply pure_blocks_rows.
  split; [|split; [|split]].
  - intros b. split; [|apply assembled_block_rows].
    destruct Hrows as (? & ? & ? & ?). by destruct b.
  - by apply stack_length.
  - apply stack_rows. intros b. apply assembled_block_rows.
  - rewrite assembled_d, length_app, assembled_d_x, zeros_length,
      assembled_d_y_length. lia.
Qed.

(** ** The stacked operator as a pair of coupled equations *)

(** X5.  On a well-formed layout, for a vector [u] of length 2N split
    into its halves [u_x] and [u_y], entry [i] of [G u] is
    [G_xx[i] . u_x + G_xy[i] . u_y] and entry [N + i] is
    [G_yx[i] . u_x + G_yy[i] . u_y]. *)
Theorem stacked_system_equations P L S u i :
  well_formed L -> assemble P L = Ok S ->
  length u = 2 * length (nodes L) -> i < length (nodes L) ->
  let N := length (nodes L) in
  let u_x := take N u in
  let u_y := drop N u in
  exists rxx rxy ryx ryy,
    G_xx (sys_blocks S) !! i = Some rxx /\
    G_xy (sys_blocks S) !! i = Some rxy /\
    G_yx (sys_blocks S) !! i = Some ryx /\
    G_yy (sys_blocks S) !! i = Some ryy /\
    dot (G S) u !! i = Some (dotprod rxx u_x + dotprod rxy u_y)%R /\
    dot (G S) u !! (N + i) = Some (dotprod ryx u_x + dotprod ryy u_y)%R.
Proof.
  intros Hwf Hrun Hu Hlt. cbv zeta.
  destruct (assemble_Ok_balanced P L S Hwf Hrun) as [Hbal ->].
  set (N := length (nodes L)) in *.
  set (B := sys_blocks (assembled P L)).
  assert (Hrows : has_rows N B) by apply pure_blocks_rows.
  destruct (block_lookup_is_Some N B XX i Hrows Hlt) as [rxx Hxx].
  destruct (block_lookup_is_Some N B XY i Hrows Hlt) as [rxy Hxy].
  destruct (block_lookup_is_Some N B YX i Hrows Hlt) as [ryx Hyx].
  destruct (block_lookup_is_Some N B YY i Hrows Hlt) as [ryy Hyy].
  exists rxx, rxy, ryx, ryy. simpl in Hxx, Hxy, Hyx, Hyy.
  repeat (split; [done|]).
  assert (Hlen : forall b r, get_block b B !! i = Some r -> length r = N).
  { intros b r Hr. pose proof (assembled_block_rows P L b) as HF.
    rewrite Forall_lookup in HF. by eapply HF. }
  assert (Hsplit : forall a b, length a = N ->
            dotprod (a ++ b) u
            = (dotprod a (take N u) + dotprod b (drop N u))%R).
  { intros a b Ha. rewrite <- (take_drop N u) at 1.
    apply dotprod_app. rewrite length_take. lia. }
  change (G (assembled P L)) with (stack B). unfold dot.
  rewrite !list_lookup_fmap.
  rewrite (stack_lookup_x N B i rxx rxy), (stack_lookup_y N B i ryx ryy)
    by done.
  simpl. rewrite !Hsplit; [done|..].
  - by apply (Hlen YX).
  - by apply (Hlen XX).
Qed.

(** ** The Dirichlet condition in the solution *)

(** X6.  On a well-formed layout with disjoint groups and an
    interpolating stencil engine, every vector that satisfies the
    assembled system is zero at both components of every fixed node,
    whatever the Lamé parameters and the body force. *)
Theorem solution_vanishes_on_fixed P L S u i :
  well_formed L -> disjoint_groups L -> interpolating P L ->
  assemble P L = Ok S -> solves (G S) (d S) u -> i ∈ group L "fixed" ->
  u !! i = Some 0%R /\ u !! (length (nodes L) + i) = Some 0%R.
Proof.
  intros Hwf Hdis Hint Hrun [Hu Hsol] Hin.
  destruct (assemble_Ok_balanced P L S Hwf Hrun) as [Hbal ->].
  set (N := length (nodes L)) in *.
  destruct (disjoint_facts L Hdis) as (_ & _ & _ & Hig & Hxf).
  assert (Hlt : i < N).
  { pose proof (targets_range L Dirichlet Hwf) as Hrg.
    rewrite Forall_forall in Hrg. by apply Hrg. }
  assert (Hnf : i ∉ group L "free") by (by apply Hxf).
  assert (Hng : i ∉ interior_ghosts L).
  { intros Hg. by destruct (Hig i Hg). }
  assert (Hd : length (d (assembled P L)) = 2 * N).
  { rewrite assembled_d, length_app, assembled_d_x, zeros_length,
      assembled_d_y_length. fold N. lia. }
  rewrite Hd in Hu.
  assert (Hdiag : forall b, b = XX \/ b = YY ->
            get_block b (sys_blocks (assembled P L)) !! i
            = Some (identity_row N i)).
  { intros b Hb. unfold N. rewrite <- (fixed_row_identity P L i) by done.
    by apply block_row_fixed. }
  assert (Hoff : forall b, b = XY \/ b = YX ->
            get_block b (sys_blocks (assembled P L)) !! i = Some (zeros N)).
  { intros b Hb. apply block_row_zero; auto. }
  assert (Hrows : has_rows N (sys_blocks (assembled P L)))
    by apply pure_blocks_rows.
  pose proof (stack_lookup_x N _ i _ _ Hrows (Hdiag XX (or_introl eq_refl))
                (Hoff XY (or_introl eq_refl))) as Hrx.
  pose proof (stack_lookup_y N _ i _ _ Hrows (Hoff YX (or_intror eq_refl))
                (Hdiag YY (or_intror eq_refl))) as Hry.
  assert (Hsplit : forall a b, length a = N ->
            dotprod (a ++ b) u
            = (dotprod a (take N u) + dotprod b (drop N u))%R).
  { intros a b Ha. rewrite <- (take_drop N u) at 1.
    apply dotprod_app. rewrite length_take. lia. }
  destruct (lookup_lt_is_Some_2 u i) as [x Hux]; [lia|].
  destruct (lookup_lt_is_Some_2 u (N + i)) as [y Huy]; [lia|].
  assert (Hdx : d (assembled P L) !! i = Some 0%R).
  { rewrite assembled_d, lookup_app_l
      by (rewrite assembled_d_x, zeros_length; done).
    rewrite assembled_d_x. by apply zeros_lookup. }
  assert (Hdy : d (assembled P L) !! (N + i) = Some 0%R).
  { rewrite assembled_d, lookup_app_r
      by (rewrite assembled_d_x, zeros_length; fold N; lia).
    rewrite assembled_d_x, zeros_length. fold N.
    replace (N + i - N) with i by lia.
    rewrite assembled_d_y_lookup by done. by rewrite decide_True. }
  rewrite <- Hsol in Hdx, Hdy. unfold dot in Hdx, Hdy.
  rewrite list_lookup_fmap in Hdx, Hdy.
  change (G (assembled P L)) with (stack (sys_blocks (assembled P L)))
    in Hdx, Hdy.
  rewrite Hrx in Hdx. rewrite Hry in Hdy. simpl in Hdx, Hdy.
  rewrite Hsplit in Hdx by apply identity_row_length.
  rewrite Hsplit in Hdy by apply zeros_length.
  rewrite dotprod_zeros in Hdx, Hdy.
  rewrite (dotprod_identity N i _ x) in Hdx
    by (done || by rewrite lookup_take_lt).
  rewrite (dotprod_identity N i _ y) in Hdy
    by (done || by rewrite lookup_drop).
  injection Hdx as Hdx. injection Hdy as Hdy.
  rewrite Hux, Huy. split; f_equal; lra.
Qed.

(** ** The cross blocks *)

Lemma pde_row_cross_entry P p x b j :
  b = XY \/ b = YX -> j < length p ->
  pde_row P p x b !! j
  = Some ((lamb P + mu P) * weights (n P) p x (1%nat, 1%nat) j)%R.
Proof.
  intros Hb Hj. unfold pde_row. rewrite weight_row_lookup by done.
  destruct Hb as [-> | ->]; simpl; f_equal; ring.
Qed.

Lemma pde_row_cross P p x : pde_row P p x XY = pde_row P p x YX.
Proof.
  apply list_eq. intros j. destruct (decide (j < length p)) as [Hj|Hj].
  - rewrite !pde_row_cross_entry by auto. done.
  - rewrite !lookup_ge_None_2; [done|unfold pde_row;
      rewrite weight_row_length; lia..].
Qed.

(** X7.  The PDE rows of the two cross blocks are the same row, the
    mixed-derivative stencil scaled by lamb + mu; on a well-formed layout
    the assembled xy and yx blocks therefore agree on every row that is
    not a free node's row. *)
Theorem cross_blocks_agree_off_free P L S :
  well_formed L -> assemble P L = Ok S ->
  (forall x b j, b = XY \/ b = YX -> j < length (nodes L) ->
     pde_row P (nodes L) x b !! j
     = Some ((lamb P + mu P)
             * weights (n P) (nodes L) x (1%nat, 1%nat) j)%R) /\
  (forall i, i ∉ group L "free" ->
     G_xy (sys_blocks S) !! i = G_yx (sys_blocks S) !! i).
Proof.
  intros Hwf Hrun.
  destruct (assemble_Ok_balanced P L S Hwf Hrun) as [Hbal ->].
  split.
  - intros x b j Hb Hj. by apply pde_row_cross_entry.
  - intros i Hnf.
    change (get_block XY (sys_blocks (assembled P L)) !! i
            = get_block YX (sys_blocks (assembled P L)) !! i).
    rewrite !assembled_block.
    rewrite (write_rows_lookup_notin _ (stage_writes P L Traction XY)),
      (write_rows_lookup_notin _ (stage_writes P L Traction YX))
      by (by rewrite traction_targets).
    assert (Hw : stage_writes P L PDE XY = stage_writes P L PDE YX).
    { cbn [stage_writes]. f_equal. apply map_ext. intros j.
      apply pde_row_cross. }
    by rewrite Hw.
Qed.

(** ** What the operator and the right-hand side depend on *)

Lemma stage_writes_params P P' L s b :
  n P = n P' -> lamb P = lamb P' -> mu P = mu P' ->
  stage_writes P L s b = stage_writes P' L s b.
Proof.
  destruct P, P'. simpl. intros -> -> ->. done.
Qed.

Lemma group_idx L L' k : idx L = idx L' -> group L k = group L' k.
Proof. unfold group. by intros ->. Qed.

Lemma targets_idx L L' s : idx L = idx L' -> targets L s = targets L' s.
Proof.
  intros H. destruct s; simpl; unfold interior_ghosts;
    by rewrite ?(group_idx L L' _ H).
Qed.

(** X8.  On well-formed layouts: the operator does not depend on the
    body force, and the right-hand side depends on nothing but the body
    force, the node groups and the number of nodes (not on the Lamé
    parameters, the stencil size, the coordinates or the normals). *)
Theorem operator_and_forcing_are_separate P P' L L' S S' :
  well_formed L -> well_formed L' ->
  assemble P L = Ok S -> assemble P' L' = Ok S' ->
  (L = L' -> n P = n P' -> lamb P = lamb P' -> mu P = mu P' ->
   sys_blocks S = sys_blocks S' /\ G S = G S') /\
  (idx L = idx L' -> length (nodes L) = length (nodes L') ->
   body_force P = body_force P' -> d S = d S').
Proof.
  intros Hwf Hwf' Hrun Hrun'.
  destruct (assemble_Ok_balanced P L S Hwf Hrun) as [_ ->].
  destruct (assemble_Ok_balanced P' L' S' Hwf' Hrun') as [_ ->].
  split.
  - intros <- Hn Hl Hm.
    assert (HB : sys_blocks (assembled P L) = sys_blocks (assembled P' L)).
    { unfold assembled, pure_system, pure_blocks, script_ops.
      cbn [sys_blocks foldl]. unfold apply_writes, gen_writes.
      cbn [G_xx G_xy G_yx G_yy]. rewrite !with_normals_id.
      by rewrite !(stage_writes_params P P' L). }
    split; [done|].
    change (stack (sys_blocks (assembled P L))
            = stack (sys_blocks (assembled P' L))). by rewrite HB.
  - intros Hidx Hlen Hbf.
    unfold assembled, pure_system, pure_rhs, script_rhs, force_x, force_y.
    cbn [d foldl]. rewrite Hlen, Hbf.
    by rewrite !(targets_idx L L' _ Hidx).
Qed.

(** ** The forcing on rows listed by several groups *)

(** X9.  On a well-formed layout, disjoint or not, the y half of the
    right-hand side holds the body force exactly on the rows of
    [interior+ghosts] that are neither free nor fixed rows and zero on
    every other row, and the x half is zero: the zeros of the boundary
    rows are assigned last and win. *)
Theorem boundary_rows_are_unforced P L S i :
  well_formed L -> assemble P L = Ok S -> i < length (nodes L) ->
  d S !! i = Some 0%R /\
  d S !! (length (nodes L) + i)
  = Some (if decide (i ∈ interior_ghosts L /\ (i ∉ group L "free") /\
                     (i ∉ group L "fixed"))
          then body_force P else 0%R).
Proof.
  intros Hwf Hrun Hlt.
  destruct (assemble_Ok_balanced P L S Hwf Hrun) as [_ ->].
  rewrite assembled_d, assembled_d_x. split.
  - rewrite lookup_app_l by (by rewrite zeros_length).
    by apply zeros_lookup.
  - rewrite lookup_app_r by (rewrite zeros_length; lia).
    rewrite zeros_length.
    replace (length (nodes L) + i - length (nodes L)) with i by lia.
    rewrite assembled_d_y_lookup by done. f_equal.
    repeat destruct (decide _); tauto.
Qed.

(** ** Nodes outside every group *)

(** X10.  On a well-formed layout, a node that no group lists is never
    written: its two rows of the stacked operator are zero rows and its
    two entries of the right-hand side are zero. *)
Theorem unlisted_node_rows_are_zero P L S i :
  well_formed L -> assemble P L = Ok S -> i < length (nodes L) ->
  i ∉ interior_ghosts L -> i ∉ group L "fixed" -> i ∉ group L "free" ->
  let N := length (nodes L) in
  G S !! i = Some (zeros (2 * N)) /\ G S !! (N + i) = Some (zeros (2 * N)) /\
  d S !! i = Some 0%R /\ d S !! (N + i) = Some 0%R.
Proof.
  intros Hwf Hrun Hlt Hng Hnx Hnf. cbv zeta.
  destruct (assemble_Ok_balanced P L S Hwf Hrun) as [_ ->].
  assert (Hz : forall b, get_block b (sys_blocks (assembled P L)) !! i
                         = Some (zeros (length (nodes L)))).
  { intros b. apply block_row_zero; auto. }
  assert (Hrows : has_rows (length (nodes L)) (sys_blocks (assembled P L)))
    by apply pure_blocks_rows.
  assert (Hzz : zeros (length (nodes L)) ++ zeros (length (nodes L))
                = zeros (2 * length (nodes L))).
  { unfold zeros. rewrite <- replicate_add. f_equal. lia. }
  rewrite <- Hzz.
  change (G (assembled P L)) with (stack (sys_blocks (assembled P L))).
  split; [|split].
  - apply (stack_lookup_x (length (nodes L))); [done|apply (Hz XX)|apply (Hz XY)].
  - apply (stack_lookup_y (length (nodes L))); [done|apply (Hz YX)|apply (Hz YY)].
  - rewrite assembled_d, assembled_d_x. split.
    + rewrite lookup_app_l by (by rewrite zeros_length).
      by apply zeros_lookup.
    + rewrite lookup_app_r by (rewrite zeros_length; lia).
      rewrite zeros_length.
      replace (length (nodes L) + i - length (nodes L)) with i by lia.
      rewrite assembled_d_y_lookup by done.
      by rewrite !decide_False.
Qed.

(** ** Displacement is proportional to the body force *)

Lemma scale_length c v : length (scale c v) = length v.
Proof. apply length_map. Qed.

Lemma dotprod_scale r c u : dotprod r (scale c u) = (c * dotprod r u)%R.
Proof.
  revert u. induction r as [|x r IH]; intros [|v u]; unfold dotprod in *;
    simpl; try lra.
  rewrite IH. lra.
Qed.

Lemma dot_scale M c u : dot M (scale c u) = scale c (dot M u).
Proof.
  unfold dot, scale. rewrite map_map. apply map_ext. intros r.
  apply dotprod_scale.
Qed.

Lemma scale_lookup c v i : scale c v !! i = Rmult c <$> v !! i.
Proof. unfold scale. apply list_lookup_fmap. Qed.

(** X11.  On a well-formed layout, multiplying the body force by [c]
    multiplies the right-hand side by [c] and leaves the operator alone:
    if [u] satisfies the system assembled for a body force, then [c u]
    satisfies the system assembled for [c] times that body force. *)
Theorem solution_scales_with_body_force P P' L S S' c u :
  well_formed L ->
  n P' = n P -> lamb P' = lamb P -> mu P' = mu P ->
  body_force P' = (c * body_force P)%R ->
  assemble P L = Ok S -> assemble P' L = Ok S' ->
  G S' = G S /\ d S' = scale c (d S) /\
  (solves (G S) (d S) u -> solves (G S') (d S') (scale c u)).
Proof.
  intros Hwf Hn Hl Hm Hbf Hrun Hrun'.
  destruct (assemble_Ok_balanced P L S Hwf Hrun) as [_ ->].
  destruct (assemble_Ok_balanced P' L S' Hwf Hrun') as [_ ->].
  assert (HG : G (assembled P' L) = G (assembled P L)).
  { change (stack (sys_blocks (assembled P' L))
            = stack (sys_blocks (assembled P L))). f_equal.
    unfold assembled, pure_system, pure_blocks, script_ops.
    cbn [sys_blocks foldl]. unfold apply_writes, gen_writes.
    cbn [G_xx G_xy G_yx G_yy]. rewrite !with_normals_id.
    by rewrite !(stage_writes_params P' P L). }
  assert (Hd : d (assembled P' L) = scale c (d (assembled P L))).
  { apply list_eq. intros r. rewrite scale_lookup.
    destruct (decide (r < 2 * length (nodes L))) as [Hr|Hr].
    - rewrite !assembled_d, !assembled_d_x.
      destruct (decide (r < length (nodes L))) as [Hx|Hx].
      + rewrite !lookup_app_l by (by rewrite zeros_length).
        rewrite zeros_lookup by done. simpl. f_equal. lra.
      + rewrite !lookup_app_r by (rewrite zeros_length; lia).
        rewrite zeros_length.
        rewrite !assembled_d_y_lookup by lia. simpl. f_equal.
        rewrite Hbf. repeat destruct (decide _); lra.
    - rewrite !lookup_ge_None_2; [done|..];
        rewrite assembled_d, length_app, assembled_d_x, zeros_length,
          assembled_d_y_length; lia. }
  split; [done|]. split; [done|].
  intros [Hu Hsol]. split.
  - by rewrite scale_length, Hd, scale_length.
  - by rewrite HG, Hd, dot_scale, Hsol.
Qed.

(** ** The strain step *)

Lemma strain_wrong_length stencil P L u :
  length u <> 2 * length (nodes L) -> strain stencil P L u = Err ValueError.
Proof.
  intros Hlen. unfold strain, reshape2. cbv zeta.
  destruct (decide (length u = 2 * (length u `div` 2))) as [He|He]; [|done].
  cbn [mbind res_bind fst snd]. unfold derivative_matrix, spdot. cbv zeta.
  repeat (destruct (decide (Forall _ _)) as [_|_]; cbn [mbind res_bind];
          try reflexivity).
  destruct (decide (length (take (length u `div` 2) u) = length (nodes L)))
    as [Ht|Ht]; [|reflexivity].
  rewrite length_take in Ht. lia.
Qed.

(** X12.  The strain step fails with a [ValueError] whenever the
    displacement vector does not have length 2N (odd, too short or too
    long), and so returns strain fields only for vectors of length 2N. *)
Theorem strain_needs_both_components stencil P L u :
  (length u <> 2 * length (nodes L) ->
   strain stencil P L u = Err ValueError) /\
  (forall E, strain stencil P L u = Ok E ->
   length u = 2 * length (nodes L)).
Proof.
  split; [apply strain_wrong_length|].
  intros E HE. destruct (decide (length u = 2 * length (nodes L)));
    [done|]. rewrite strain_wrong_length in HE by done. discriminate.
Qed.

(** ** Stacking and splitting the two components *)

Lemma reshape2_Ok {A} (u a b : list A) :
  reshape2 u = Ok (a, b) -> u = a ++ b /\ length a = length b.
Proof.
  unfold reshape2. cbv zeta. generalize (length u `div` 2). intros h H.
  destruct (decide (length u = 2 * h)) as [He|]; [|done].
  injection H as <- <-. split; [by rewrite take_drop|].
  rewrite length_take, length_drop. lia.
Qed.

(** X15.  Splitting undoes stacking: a vector stacked from two halves of
    equal length (as the right-hand side is, and as the solution is read)
    splits into those halves; whatever splits is the concatenation of its
    two halves, which have equal length; and a vector of odd length does
    not split but raises a [ValueError]. *)
Theorem reshape_undoes_hstack (a b u : list R) :
  (length a = length b -> reshape2 (a ++ b) = Ok (a, b)) /\
  (reshape2 u = Ok (a, b) -> u = a ++ b /\ length a = length b) /\
  (reshape2 u = Err ValueError <-> length u `mod` 2 = 1).
Proof.
  split; [|split].
  - intros Hlen. rewrite (reshape2_even (a ++ b) (length a))
      by (rewrite length_app, Hlen; lia).
    by rewrite take_app_length, drop_app_length.
  - apply reshape2_Ok.
  - unfold reshape2.
    pose proof (Nat.div_mod_eq (length u) 2) as Hdm.
    pose proof (Nat.mod_upper_bound (length u) 2 ltac:(lia)) as Hub.
    destruct (decide (length u = 2 * (length u `div` 2))); split;
      intros H; (done || lia || (exfalso; lia)).
Qed.

(** ** Tossing out the ghost nodes *)

Lemma take_idx_lookup {A} (a : list A) (ix : list nat) (xs : list A) m j :
  take_idx a ix = Ok xs -> ix !! m = Some j ->
  xs !! m = a !! j /\ j < length a.
Proof.
  intros H%mapM_res_Ok Hm.
  destruct (Forall2_lookup_l _ _ _ _ _ H Hm) as (x & Hx & Hf).
  destruct (a !! j) as [y|] eqn:Ej; [|done]. injection Hf as ->.
  split; [done|]. by eapply lookup_lt_Some.
Qed.

Lemma take_idx_out_of_range {A} (a : list A) (ix : list nat) :
  Exists (fun j => length a <= j) ix -> take_idx a ix = Err IndexError.
Proof.
  unfold take_idx. induction ix as [|j ix IH]; intros H;
    [by apply Exists_nil in H|].
  simpl. destruct (a !! j) as [y|] eqn:Ej; [|done]. simpl.
  apply Exists_cons in H as [H|H].
  - apply lookup_lt_Some in Ej. lia.
  - by rewrite IH.
Qed.

(** X16.  When the ghost nodes are tossed out, the four arrays handed to
    the plot have the length of [interior+boundary] and are aligned by
    its order: entry [m] of each is the entry of the full array at the
    [m]-th index of the group.  The step needs the two keys it reads
    ([KeyError] otherwise) and fails with an [IndexError] when the group
    indexes past the end of the node array. *)
Theorem toss_ghosts_aligned (ix : gmap string (list nat))
    (nodes0 : list point) (u_x u_y I2_ : list R) :
  (forall out, toss_ghosts ix nodes0 u_x u_y I2_ = Ok out ->
     exists k, ix !! "interior+boundary" = Some k /\
       length (plot_nodes out) = length k /\
       length (plot_u_x out) = length k /\
       length (plot_u_y out) = length k /\
       length (plot_I2 out) = length k /\
       forall m j, k !! m = Some j ->
         plot_nodes out !! m = nodes0 !! j /\
         plot_u_x out !! m = u_x !! j /\
         plot_u_y out !! m = u_y !! j /\
         plot_I2 out !! m = I2_ !! j /\
         j < length nodes0 /\ j < length u_x /\ j < length u_y /\
         j < length I2_) /\
  (ix !! "free" = None \/ ix !! "interior+boundary" = None ->
   toss_ghosts ix nodes0 u_x u_y I2_ = Err KeyError) /\
  (forall f k, ix !! "free" = Some f -> ix !! "interior+boundary" = Some k ->
     Exists (fun j => length nodes0 <= j) k ->
     toss_ghosts ix nodes0 u_x u_y I2_ = Err IndexError).
Proof.
  split; [|split].
  - intros out H. unfold toss_ghosts, getitem in H. cbv zeta in H.
    inv_res. simplify_eq.
    eexists. split; [done|]. cbn [plot_nodes plot_u_x plot_u_y plot_I2].
    do 4 (split; [by eapply take_idx_length|]).
    intros m j Hm.
    repeat match goal with
           | H : take_idx _ _ = Ok _ |- _ =>
               apply (fun H => take_idx_lookup _ _ _ m j H Hm) in H
                 as [? ?]
           end.
    done.
  - unfold toss_ghosts, getitem. intros [Hn|Hn].
    + by rewrite Hn.
    + destruct (ix !! "free"); [|done]. simpl. by rewrite Hn.
  - intros f k Hf Hk Hex. unfold toss_ghosts, getitem.
    rewrite Hf, Hk. cbn [of_option mbind res_bind].
    rewrite (take_idx_out_of_range nodes0 k Hex). reflexivity.
Qed.

(** ** From the solution to the plotted arrays *)

Lemma form_groups_boundary L ix :
  form_groups (idx L) = Ok ix ->
  ix !! "free" = Some (group L "free") /\
  ix !! "interior+boundary" = Some (interior_boundary L).
Proof.
  unfold form_groups, getitem. intros H. inv_res. subst.
  rewrite !lookup_insert_ne in * by done. simplify_eq.
  unfold interior_boundary, group.
  split; simplify_map_eq; done.
Qed.

Lemma interior_boundary_range L :
  well_formed L ->
  Forall (fun i => i < length (nodes L)) (interior_boundary L).
Proof.
  intros Hwf. unfold interior_boundary.
  repeat (apply Forall_app; split);
    apply wf_group_range; (done || base_group).
Qed.

Lemma boundary_facts L :
  disjoint_groups L ->
  NoDup (interior_boundary L) /\
  forall j, j ∈ interior_boundary L -> j ∉ group L "free_ghosts".
Proof.
  unfold disjoint_groups, interior_boundary.
  generalize (group L "interior") (group L "fixed") (group L "free")
             (group L "free_ghosts").
  intros li lx lf lg Hnd.
  assert (Hp : li ++ lx ++ lf ++ lg ≡ₚ (li ++ lf ++ lx) ++ lg).
  { rewrite <- !(assoc_L (++)). f_equiv. apply Permutation_app_swap_app. }
  rewrite Hp in Hnd. apply NoDup_app in Hnd as (Hb & Hd & _).
  split; [done|exact Hd].
Qed.

(** X17.  On a well-formed layout with disjoint groups whose
    first-derivative stencils stay among the nodes, for any vector [u] of
    length 2N the script's last steps succeed and hand the plot four
    arrays of the length of [interior+boundary], which lists every
    interior, free and fixed node once and no ghost node: entry [m] of
    the arrays holds the coordinates, the two displacement components
    [u[j]] and [u[N + j]] and the strain invariant [I2[j]] of the [m]-th
    such node [j]; no plotted value of the invariant is below zero (it
    may be NaN). *)
Theorem plotted_fields_without_ghosts stencil P L u :
  well_formed L -> disjoint_groups L -> stencil_fits stencil P L ->
  length u = 2 * length (nodes L) ->
  let N := length (nodes L) in
  let k := interior_boundary L in
  exists E out,
    strain stencil P L u = Ok E /\ postprocess stencil P L u = Ok out /\
    length (plot_nodes out) = length k /\ length (plot_u_x out) = length k /\
    length (plot_u_y out) = length k /\ length (plot_I2 out) = length k /\
    NoDup k /\
    (forall m j, k !! m = Some j ->
       (j ∉ group L "free_ghosts") /\
       plot_nodes out !! m = Some (node L j) /\
       plot_u_x out !! m = u !! j /\
       plot_u_y out !! m = u !! (N + j) /\
       plot_I2 out !! m = I2 E !! j /\ j < length (I2 E)) /\
    (forall v, v ∈ plot_I2 out -> (v <? 0)%float = false).
Proof.
  intros Hwf Hdis Hfit Hlen. cbv zeta.
  set (N := length (nodes L)). set (k := interior_boundary L).
  destruct (form_groups_total L Hwf) as (ix & Hix & _).
  destruct (form_groups_boundary L ix Hix) as [Hf Hk].
  destruct (boundary_facts L Hdis) as [Hnd Hng].
  pose proof (interior_boundary_range L Hwf) as Hr. fold N k in Hr, Hk, Hnd, Hng.
  assert (Ht : length (take N u) = N) by (rewrite length_take; lia).
  assert (Hd : length (drop N u) = N) by (rewrite length_drop; lia).
  assert (HI : length (I2 (pure_strain stencil P L u)) = N).
  { unfold pure_strain. cbv zeta. cbn [I2].
    apply second_invariant_length;
      [apply apply_rows_length..|apply shear_length; apply apply_rows_length]. }
  exists (pure_strain stencil P L u). eexists.
  split; [by apply strain_total|]. split.
  { unfold postprocess. rewrite Hix. cbn [mbind res_bind].
    rewrite (strain_total stencil P L u Hfit Hlen). cbn [mbind res_bind].
    rewrite (reshape2_even u N Hlen). cbn [mbind res_bind fst snd].
    unfold toss_ghosts, getitem. rewrite Hf, Hk.
    cbn [of_option mbind res_bind].
    rewrite (take_idx_total (nodes L) k (0, 0)%R) by done.
    cbn [mbind res_bind].
    rewrite (take_idx_total (take N u) k 0%float) by (by rewrite Ht).
    cbn [mbind res_bind].
    rewrite (take_idx_total (drop N u) k 0%float) by (by rewrite Hd).
    cbn [mbind res_bind].
    rewrite (take_idx_total (I2 (pure_strain stencil P L u)) k 0%float)
      by (by rewrite HI).
    cbn [mbind res_bind]. reflexivity. }
  cbn [plot_nodes plot_u_x plot_u_y plot_I2].
  rewrite !length_map. do 4 (split; [done|]). split; [done|]. split.
  - intros m j Hm.
    assert (Hj : j < N).
    { rewrite Forall_forall in Hr. apply Hr. by eapply list_elem_of_lookup_2. }
    split; [apply Hng; by eapply list_elem_of_lookup_2|].
    rewrite !list_lookup_fmap, Hm. cbn [fmap option_fmap option_map].
    split; [done|]. split; [|split; [|split]].
    + destruct (nth_lookup_or_length (take N u) j 0%float) as [Hn|Hn]; [|lia].
      rewrite <- Hn. by apply lookup_take_lt.
    + destruct (nth_lookup_or_length (drop N u) j 0%float) as [Hn|Hn]; [|lia].
      rewrite <- Hn. by rewrite lookup_drop.
    + destruct (nth_lookup_or_length (I2 (pure_strain stencil P L u)) j 0%float)
        as [Hn|Hn]; [done|lia].
    + lia.
  - intros v Hv. apply list_elem_of_fmap in Hv as (j & -> & Hj).
    assert (Hlt : j < N).
    { rewrite Forall_forall in Hr. by apply Hr. }
    destruct (nth_lookup_or_length (I2 (pure_strain stencil P L u)) j 0%float)
      as [Hn|Hn]; [|lia].
    apply list_elem_of_lookup_2 in Hn. revert Hn.
    generalize (nth j (I2 (pure_strain stencil P L u)) 0%float). intros v Hv.
    unfold pure_strain in Hv. cbv zeta in Hv. cbn [I2] in Hv.
    apply second_invariant_elem in Hv as [x ->]. apply sqrt_never_negative.
Qed.

End Script.

(** * The claims on the small layout *)

Lemma toy_groups :
  group toy_layout "interior" = [0] /\ group toy_layout "fixed" = [1] /\
  group toy_layout "free" = [2] /\ group toy_layout "free_ghosts" = [3].
Proof. by vm_compute. Qed.

Lemma toy_wf : well_formed toy_layout.
Proof.
  destruct toy_groups as (Hi & Hx & Hf & Hg).
  split.
  - unfold base_groups.
    repeat (apply Forall_cons; split); [..|apply Forall_nil];
      by vm_compute; eexists.
  - unfold base_groups.
    repeat (apply Forall_cons; split); [..|apply Forall_nil];
      rewrite ?Hi, ?Hx, ?Hf, ?Hg; repeat constructor; simpl; lia.
  - done.
Qed.

Lemma toy_disjoint : disjoint_groups toy_layout.
Proof.
  destruct toy_groups as (Hi & Hx & Hf & Hg).
  unfold disjoint_groups. rewrite Hi, Hx, Hf, Hg. simpl.
  apply (bool_decide_unpack _). by vm_compute.
Qed.

Lemma toy_balanced : balanced toy_layout.
Proof. by vm_compute. Qed.

Lemma toy_interpolating P : interpolating toy_weights P toy_layout.
Proof.
  intros i j Hi Hj. destruct toy_groups as (_ & Hx & _ & _).
  rewrite Hx in Hi. apply list_elem_of_singleton in Hi as ->.
  simpl in Hj. unfold toy_weights, node. simpl.
  destruct j as [|[|[|[|j]]]]; [..|lia]; simpl;
    destruct (decide _) as [E|E]; try done;
    try (injection E; intros; lra).
Qed.

Lemma toy_assemble P :
  assemble toy_weights P toy_layout = Ok (assembled toy_weights P toy_layout).
Proof. apply assemble_total; [apply toy_wf|apply toy_balanced]. Qed.

(** The system the script assembles on the small layout. *)
Abbreviation toy_system := (assembled toy_weights user_params toy_layout).

(** Its right-hand side: the body force sits on the interior node and on
    the ghost node. *)
Example toy_rhs : d toy_system = [0; 0; 0; 0; 1; 0; 0; 1]%R.
Proof. reflexivity. Qed.

(** The stages that write each row of the xx block. *)
Example toy_writers :
  map (writers toy_layout XX) [0; 1; 2; 3]
  = [[PDE]; [Dirichlet]; [Traction]; [PDE]].
Proof. by vm_compute. Qed.

(** The ghost row 3 holds the PDE row of the free node 2. *)
Lemma pde_rows_in_ghost_rows_witness :
  well_formed toy_layout /\ disjoint_groups toy_layout /\
  assemble toy_weights user_params toy_layout = Ok toy_system /\
  G_xx (sys_blocks toy_system) !! 3 =
    Some (weight_row toy_weights 20 toy_nodes (2, 1)%R
            [((2, 0), (1 + 2 * 1)%R); ((0, 2), 1%R)]).
Proof.
  split; [apply toy_wf|]. split; [apply toy_disjoint|].
  split; [apply toy_assemble|].
  destruct (pde_rows_in_ghost_rows toy_weights user_params toy_layout
              toy_system toy_wf toy_disjoint (toy_assemble user_params))
    as [_ H].
  destruct (H 1 2 eq_refl) as (r & Hr & _ & _ & Hxx & _).
  injection Hr as <-. exact Hxx.
Defined.

(** The free node 2, with normal (1, 0), holds its traction row. *)
Lemma traction_rows_in_free_rows_witness :
  well_formed toy_layout /\
  assemble toy_weights user_params toy_layout = Ok toy_system /\
  2 ∈ group toy_layout "free" /\
  G_xx (sys_blocks toy_system) !! 2 =
    Some (weight_row toy_weights 20 toy_nodes (2, 1)%R
            [((1, 0), (1 * (1 + 2 * 1))%R); ((0, 1), (0 * 1)%R)]).
Proof.
  assert (Hin : 2 ∈ group toy_layout "free").
  { destruct toy_groups as (_ & _ & -> & _). by left. }
  split; [apply toy_wf|]. split; [apply toy_assemble|]. split; [exact Hin|].
  exact (proj1 (traction_rows_in_free_rows toy_weights user_params toy_layout
                  toy_system 2 toy_wf (toy_assemble user_params) Hin)).
Defined.

(** The fixed node 1 holds the identity row, and its forcing is zero. *)
Lemma dirichlet_rows_identity_witness :
  well_formed toy_layout /\ disjoint_groups toy_layout /\
  interpolating toy_weights user_params toy_layout /\
  assemble toy_weights user_params toy_layout = Ok toy_system /\
  1 ∈ group toy_layout "fixed" /\
  G_xx (sys_blocks toy_system) !! 1 = Some (identity_row 4 1) /\
  d toy_system !! 5 = Some 0%R.
Proof.
  assert (Hin : 1 ∈ group toy_layout "fixed").
  { destruct toy_groups as (_ & -> & _ & _). by left. }
  split; [apply toy_wf|]. split; [apply toy_disjoint|].
  split; [apply toy_interpolating|]. split; [apply toy_assemble|].
  split; [exact Hin|].
  destruct (dirichlet_rows_identity toy_weights user_params toy_layout
              toy_system 1 toy_wf toy_disjoint
              (toy_interpolating user_params) (toy_assemble user_params) Hin)
    as (Hxx & _ & _ & _ & _ & _ & _ & Hd).
  split; [exact Hxx|exact Hd].
Defined.

Ltac decide_points :=
  repeat match goal with
         | |- context [decide ?Q] =>
             let E := fresh "E" in
             destruct (decide Q) as [E|E];
             [try (exfalso; first [discriminate E|injection E; intros; lra])
             |try (exfalso; apply E; reflexivity)]
         end.

Lemma shared_groups :
  group shared_layout "interior" = [0; 1] /\
  group shared_layout "fixed" = [1] /\
  group shared_layout "free" = [2] /\
  group shared_layout "free_ghosts" = [3].
Proof. by vm_compute. Qed.

Lemma shared_wf : well_formed shared_layout.
Proof.
  destruct shared_groups as (Hi & Hx & Hf & Hg).
  split.
  - unfold base_groups.
    repeat (apply Forall_cons; split); [..|apply Forall_nil];
      by vm_compute; eexists.
  - unfold base_groups.
    repeat (apply Forall_cons; split); [..|apply Forall_nil];
      rewrite ?Hi, ?Hx, ?Hf, ?Hg; repeat constructor; simpl; lia.
  - done.
Qed.

Lemma shared_assemble :
  assemble toy_weights user_params shared_layout
  = Ok (assembled toy_weights user_params shared_layout).
Proof. apply assemble_total; [apply shared_wf|by vm_compute]. Qed.

(** The two rows that are written into row 1 of the xx block of the
    layout with a shared node. *)
Lemma shared_pde_row :
  stage_row toy_weights user_params shared_layout PDE XX 1
  = [4; 4; 4; 4]%R.
Proof.
  unfold stage_row.
  assert (H : last_index (interior_ghosts shared_layout) 1 = Some 1)
    by (by vm_compute).
  assert (H' : nth 1 (interior_free shared_layout) 0 = 1) by (by vm_compute).
  rewrite H, H'.
  unfold pde_row, weight_row, toy_weights. simpl.
  repeat (f_equal; try lra).
Qed.

Lemma shared_fixed_row :
  stage_row toy_weights user_params shared_layout Dirichlet XX 1
  = [0; 1; 0; 0]%R.
Proof.
  unfold stage_row, fixed_row, weight_row, toy_weights. simpl.
  decide_points. repeat (f_equal; try lra).
Qed.

(** Row 1 of the layout with a shared node is written twice in the xx
    block, by the PDE stage with the row [4; 4; 4; 4] and then by the
    Dirichlet stage with the row [0; 1; 0; 0]: the block holds the later
    row alone, neither the earlier row nor the sum [4; 5; 4; 4].  In the
    xy block the PDE stage is the only writer of row 1. *)
Lemma last_assignment_wins_witness :
  well_formed shared_layout /\
  assemble toy_weights user_params shared_layout
  = Ok (assembled toy_weights user_params shared_layout) /\
  writers shared_layout XX 1 = [PDE; Dirichlet] /\
  stage_row toy_weights user_params shared_layout PDE XX 1
  = [4; 4; 4; 4]%R /\
  get_block XX (sys_blocks (assembled toy_weights user_params shared_layout))
    !! 1 = Some [0; 1; 0; 0]%R /\
  writers shared_layout XY 1 = [PDE] /\
  get_block XY (sys_blocks (assembled toy_weights user_params shared_layout))
    !! 1
  = Some (stage_row toy_weights user_params shared_layout PDE XY 1).
Proof.
  assert (Hxx : writers shared_layout XX 1 = [PDE; Dirichlet])
    by (by vm_compute).
  assert (Hxy : writers shared_layout XY 1 = [PDE]) by (by vm_compute).
  split; [apply shared_wf|]. split; [apply shared_assemble|].
  split; [exact Hxx|]. split; [apply shared_pde_row|].
  destruct (last_assignment_wins toy_weights user_params shared_layout
              _ shared_wf shared_assemble) as [H _].
  pose proof (proj2 (H XX 1 ltac:(simpl; lia))) as H1.
  pose proof (proj2 (H XY 1 ltac:(simpl; lia))) as H2.
  rewrite Hxx in H1. rewrite Hxy in H2. cbn [last] in H1, H2.
  rewrite shared_fixed_row in H1.
  split; [exact H1|]. split; [exact Hxy|exact H2].
Defined.

(** Two rows carry the body force 1. *)
Lemma rhs_body_force_witness :
  well_formed toy_layout /\ disjoint_groups toy_layout /\
  assemble toy_weights user_params toy_layout = Ok toy_system /\
  d_x toy_system = zeros 4 /\
  vsum (d_y toy_system) = (1 * INR 2)%R.
Proof.
  split; [apply toy_wf|]. split; [apply toy_disjoint|].
  split; [apply toy_assemble|].
  destruct (rhs_body_force toy_weights user_params toy_layout toy_system
              toy_wf toy_disjoint (toy_assemble user_params))
    as (_ & _ & Hx & _ & _ & _ & Hsum).
  split; [exact Hx|exact Hsum].
Defined.

Lemma unbalanced_wf : well_formed unbalanced_layout.
Proof.
  assert (Hg : group unbalanced_layout "interior" = [0] /\
               group unbalanced_layout "fixed" = [1] /\
               group unbalanced_layout "free" = [2] /\
               group unbalanced_layout "free_ghosts" = [])
    by (by vm_compute).
  destruct Hg as (Hi & Hx & Hf & Hg).
  split.
  - unfold base_groups.
    repeat (apply Forall_cons; split); [..|apply Forall_nil];
      by vm_compute; eexists.
  - unfold base_groups.
    repeat (apply Forall_cons; split); [..|apply Forall_nil];
      rewrite ?Hi, ?Hx, ?Hf, ?Hg; repeat constructor; simpl; lia.
  - done.
Qed.

Lemma free_layout_wf : well_formed free_layout.
Proof.
  assert (Hg : group free_layout "interior" = [0] /\
               group free_layout "fixed" = [] /\
               group free_layout "free" = [1] /\
               group free_layout "free_ghosts" = [2]) by (by vm_compute).
  destruct Hg as (Hi & Hx & Hf & Hg).
  split.
  - unfold base_groups.
    repeat (apply Forall_cons; split); [..|apply Forall_nil];
      by vm_compute; eexists.
  - unfold base_groups.
    repeat (apply Forall_cons; split); [..|apply Forall_nil];
      rewrite ?Hi, ?Hx, ?Hf, ?Hg; repeat constructor; simpl; lia.
  - done.
Qed.

(** Without its ghost node the small layout evaluates the PDE at two
    nodes and targets one row: the assembly fails.  On the layout without
    fixed nodes every stage is balanced: the assembly returns the system
    of the script without its Dirichlet stage, and no warning. *)
Lemma dimension_mismatch_and_no_warning_witness :
  (well_formed unbalanced_layout /\
   length (evaluated unbalanced_layout PDE) = 2 /\
   length (targets unbalanced_layout PDE) = 1 /\
   assemble toy_weights user_params unbalanced_layout
   = Err DimensionMismatch) /\
  (well_formed free_layout /\ group free_layout "fixed" = [] /\
   (exists S, assemble toy_weights user_params free_layout = Ok S) /\
   assemble toy_weights user_params free_layout
   = assemble_gen toy_weights [PDE; Traction] [PDE; Traction] user_params
       (normals free_layout) user_params free_layout /\
   (run toy_weights user_params free_layout).1 = []).
Proof.
  split.
  - split; [apply unbalanced_wf|]. split; [by vm_compute|].
    split; [by vm_compute|].
    apply (proj1 (dimension_mismatch_and_no_warning toy_weights user_params
                    unbalanced_layout unbalanced_wf)).
    exists PDE. by vm_compute.
  - assert (Hx : group free_layout "fixed" = []) by (by vm_compute).
    split; [apply free_layout_wf|]. split; [exact Hx|].
    destruct (dimension_mismatch_and_no_warning toy_weights user_params
                free_layout free_layout_wf) as (_ & Hok & Hnf & Hw & _).
    split; [|split; [exact (Hnf Hx)|exact Hw]].
    apply Hok. intros []; by vm_compute.
Defined.

(** Row 1 (a fixed node) does not see the parameters of the free-surface
    stage. *)
Lemma free_surface_isolation_witness :
  well_formed toy_layout /\
  length toy_normals = length (nodes toy_layout) /\
  G (pure_system toy_weights script_ops script_rhs user_params toy_normals
       user_params toy_layout) !! 1
  = G (pure_system toy_weights script_ops script_rhs stiff_params toy_normals
         user_params toy_layout) !! 1.
Proof.
  split; [apply toy_wf|]. split; [done|].
  destruct (free_surface_isolation toy_weights user_params
              user_params toy_normals stiff_params toy_normals toy_layout
              _ _ toy_wf eq_refl eq_refl
              (assemble_gen_total toy_weights script_ops script_rhs
                 user_params toy_normals user_params toy_layout
                 toy_wf eq_refl toy_balanced)
              (assemble_gen_total toy_weights script_ops script_rhs
                 stiff_params toy_normals user_params toy_layout
                 toy_wf eq_refl toy_balanced))
    as (_ & _ & HG & _).
  apply (HG 1); [simpl; lia|].
  destruct toy_groups as (_ & _ & -> & _).
  intros H. apply list_elem_of_singleton in H. discriminate.
Defined.

Lemma toy_stencil_fits P : stencil_fits toy_stencil P toy_layout.
Proof.
  intros x df _ Hdf.
  apply elem_of_cons in Hdf as [->|Hdf];
    [|apply list_elem_of_singleton in Hdf as ->];
    repeat constructor; simpl; lia.
Qed.

(** The strain of the displacement [toy_u] on the small layout: at node 0
    e_xx = 3 - 1 = 2, e_yy = 0.5 * 2 + 0.25 * 4 = 2,
    e_xy = 0.5 * (2 + 2) = 2 and I2 = sqrt (4 + 4 + 8) = 4. *)
Lemma strain_fields_witness :
  stencil_fits toy_stencil user_params toy_layout /\
  length toy_u = 2 * length (nodes toy_layout) /\
  exists E, strain toy_stencil user_params toy_layout toy_u = Ok E /\
    length (I2 E) = 4 /\
    e_xx E !! 0 = Some 2%float /\ e_yy E !! 0 = Some 2%float /\
    e_xy E !! 0 = Some 2%float /\ I2 E !! 0 = Some 4%float /\
    forall v, v ∈ I2 E -> (v <? 0)%float = false.
Proof.
  split; [apply toy_stencil_fits|]. split; [reflexivity|].
  destruct (strain_fields toy_stencil user_params toy_layout toy_u
              (toy_stencil_fits user_params) eq_refl)
    as (E & HE & _ & _ & _ & Hlen & Hrows & Hsign).
  destruct (Hrows 0 ltac:(simpl; lia)) as (Hxx & Hyy & Hxy & HI).
  exists E. split; [exact HE|]. split; [exact Hlen|].
  split; [exact Hxx|]. split; [exact Hyy|]. split; [exact Hxy|].
  split; [exact HI|]. intros v Hv. exact (proj1 (Hsign v Hv)).
Defined.

(** C8, counterexample: for the vector of NaNs that [spsolve] returns on
    a singular system, the strain step returns an invariant that is NaN
    at every node, and NaN is not at least zero. *)
Lemma strain_invariant_nan :
  length nan_u = 2 * length (nodes toy_layout) /\
  exists E, strain toy_stencil user_params toy_layout nan_u = Ok E /\
    I2 E = replicate 4 nan /\
    exists v, v ∈ I2 E /\ (0 <=? v)%float = false.
Proof.
  split; [reflexivity|].
  eexists. split; [reflexivity|]. cbn [I2].
  split; [reflexivity|].
  exists nan. split; [by left|reflexivity].
Qed.

(** The zero vector solves the system with vanishing parameters. *)
Lemma zero_moduli_pins_fixed_nodes_witness :
  well_formed toy_layout /\ disjoint_groups toy_layout /\
  interpolating toy_weights zero_params toy_layout /\
  solves (G (assembled toy_weights zero_params toy_layout))
         (d (assembled toy_weights zero_params toy_layout)) (zeros 8).
Proof.
  split; [apply toy_wf|]. split; [apply toy_disjoint|].
  split; [apply toy_interpolating|].
  exact (proj2 (zero_moduli_pins_fixed_nodes toy_weights zero_params
                  toy_layout _ toy_wf toy_disjoint
                  (toy_interpolating zero_params) eq_refl eq_refl eq_refl
                  (toy_assemble zero_params))).
Defined.

(** Traction first, then PDE, then Dirichlet gives the system of the
    script. *)
Lemma stage_order_irrelevant_witness :
  well_formed toy_layout /\ disjoint_groups toy_layout /\
  assemble_gen toy_weights [Traction; PDE; Dirichlet]
    [Dirichlet; PDE; Traction] user_params (normals toy_layout)
    user_params toy_layout
  = assemble toy_weights user_params toy_layout.
Proof.
  split; [apply toy_wf|]. split; [apply toy_disjoint|].
  refine (proj2 (proj2 (stage_order_irrelevant toy_weights user_params
                          toy_layout [Traction; PDE; Dirichlet]
                          [Dirichlet; PDE; Traction] toy_wf toy_disjoint _ _))).
  - unfold script_ops.
    eapply perm_trans; [apply perm_swap|apply perm_skip, perm_swap].
  - unfold script_rhs.
    eapply perm_trans; [apply perm_swap|apply perm_skip, perm_swap].
Defined.

(** C6, counterexample: on a layout whose group [fixed] is empty the
    assembly completes: it returns a system, in which no row is a
    Dirichlet row, and hands no [SingularConfiguration] warning to the
    caller. *)
Lemma empty_fixed_no_warning :
  group free_layout "fixed" = [] /\
  (SingularConfiguration ∉ (run toy_weights user_params free_layout).1) /\
  exists S, (run toy_weights user_params free_layout).2 = Ok S /\
    length (G S) = 6 /\
    forall b i, Dirichlet ∉ writers free_layout b i.
Proof.
  split; [by vm_compute|]. split.
  - simpl. apply not_elem_of_nil.
  - exists (assembled toy_weights user_params free_layout). simpl.
    split; [apply assemble_total; [apply free_layout_wf|by vm_compute]|].
    split; [reflexivity|].
    intros b i H. unfold writers in H.
    apply list_elem_of_filter in H as [H _].
    destruct b; simpl in H; by apply elem_of_nil in H.
Qed.

(** C9, counterexample: with vanishing Lamé parameters and body force, on
    a layout with a fixed node, a vector that is not zero satisfies the
    assembled system. *)
Lemma zero_moduli_nonzero_solution :
  group toy_layout "fixed" <> [] /\
  exists S u,
    assemble toy_weights zero_params toy_layout = Ok S /\
    solves (G S) (d S) u /\ u <> zeros (2 * length (nodes toy_layout)).
Proof.
  split.
  { destruct toy_groups as (_ & -> & _ & _). done. }
  exists (assembled toy_weights zero_params toy_layout),
         [1; 0; 0; 0; 0; 0; 0; 0]%R.
  split; [apply toy_assemble|]. split.
  - apply (proj2 (zero_moduli_solutions toy_weights zero_params toy_layout
                    _ _ toy_wf toy_disjoint (toy_interpolating zero_params)
                    eq_refl eq_refl eq_refl (toy_assemble zero_params))).
    split; [done|]. intros i Hi.
    destruct toy_groups as (_ & Hx & _ & _). rewrite Hx in Hi.
    apply list_elem_of_singleton in Hi as ->. done.
  - simpl. intros H. injection H. lra.
Qed.

(** * The further properties on the small layout *)

Lemma toy_form_groups :
  form_groups (idx toy_layout)
  = Ok (<["interior+boundary" := [0; 2; 1]]>
          (<["interior+ghosts" := [0; 3]]>
             (<["interior+free" := [0; 2]]> toy_idx))).
Proof. reflexivity. Qed.

(** The derived groups of the small layout. *)
Lemma form_groups_unions_witness :
  exists ix, form_groups toy_idx = Ok ix /\
    ix !! "interior+boundary" = Some [0; 2; 1] /\
    ix !! "fixed" = Some [1].
Proof.
  eexists. split; [exact toy_form_groups|].
  destruct (form_groups_unions toy_idx _ toy_form_groups)
    as (i & x & f & g & Hi & Hx & Hf & Hg & _ & _ & Hb & Hk & _).
  injection Hi as <-. injection Hx as <-. injection Hf as <-.
  split; [exact Hb|].
  rewrite (Hk "fixed"); [reflexivity|].
  intros H. repeat (apply elem_of_cons in H as [H|H]; [discriminate H|]).
  by apply elem_of_nil in H.
Defined.

(** The assembly of the small layout went through, so its groups are in
    range and balanced. *)
Lemma assemble_Ok_layout_witness :
  assemble toy_weights user_params toy_layout = Ok toy_system /\
  balanced toy_layout.
Proof.
  split; [apply toy_assemble|].
  exact (proj2 (proj2 (proj2 (assemble_Ok_layout toy_weights user_params
                                toy_layout toy_system
                                (toy_assemble user_params))))).
Defined.

(** The system of the small layout is 8 x 8. *)
Lemma system_is_square_witness :
  well_formed toy_layout /\
  length (G toy_system) = 8 /\ length (d toy_system) = 8.
Proof.
  split; [apply toy_wf|].
  destruct (system_is_square toy_weights user_params toy_layout toy_system
              toy_wf (toy_assemble user_params)) as (_ & HG & _ & Hd).
  split; [exact HG|exact Hd].
Defined.

(** The first equation of the small layout applied to the zero vector. *)
Lemma stacked_system_equations_witness :
  well_formed toy_layout /\
  exists rxx rxy,
    G_xx (sys_blocks toy_system) !! 0 = Some rxx /\
    G_xy (sys_blocks toy_system) !! 0 = Some rxy /\
    dot (G toy_system) (zeros 8) !! 0
    = Some (dotprod rxx (zeros 4) + dotprod rxy (zeros 4))%R.
Proof.
  split; [apply toy_wf|].
  destruct (stacked_system_equations toy_weights user_params toy_layout
              toy_system (zeros 8) 0 toy_wf (toy_assemble user_params)
              eq_refl ltac:(simpl; lia))
    as (rxx & rxy & _ & _ & Hxx & Hxy & _ & _ & Hd & _).
  exists rxx, rxy. split; [exact Hxx|]. split; [exact Hxy|exact Hd].
Defined.

Lemma pick_interpolating P : interpolating pick_weights P toy_layout.
Proof.
  intros i j Hi Hj. destruct toy_groups as (_ & Hx & _ & _).
  rewrite Hx in Hi. apply list_elem_of_singleton in Hi as ->.
  simpl in Hj. unfold pick_weights, node. simpl.
  destruct j as [|[|[|[|j]]]]; [..|lia]; simpl;
    destruct (decide _) as [E|E]; try done;
    try (injection E; intros; lra).
Qed.

Lemma pick_assemble P :
  assemble pick_weights P toy_layout
  = Ok (assembled pick_weights P toy_layout).
Proof. apply assemble_total; [apply toy_wf|apply toy_balanced]. Qed.

(** With the parameters of the script (lamb = mu = 1 and a unit body
    force) the vector [pick_u] satisfies the eight equations of the small
    layout under [pick_weights]: 3 u_x[0] = 0 and u_y[0] = 1 at the
    interior node and at the ghost, u_x[1] = 0 and u_y[1] = 0 at the
    fixed node, and 0 = 0 at the free node. *)
Lemma pick_solution :
  solves (G (assembled pick_weights user_params toy_layout))
         (d (assembled pick_weights user_params toy_layout)) pick_u.
Proof.
  split; [reflexivity|].
  destruct toy_groups as (Hi & Hx & Hf & Hg).
  unfold dot, assembled, pick_u, pure_system, stack, pure_blocks, pure_rhs,
    vstack, script_ops, script_rhs, gen_writes, stage_writes, with_normals,
    targets, interior_ghosts, interior_free.
  cbn [foldl G d nodes idx normals].
  unfold group in *. cbn [idx nodes normals].
  rewrite !Hi, !Hx, !Hf, !Hg.
  cbn -[Rplus Rmult].
  decide_points.
  repeat (f_equal; try (unfold force_x; lra)).
Qed.

(** A solution on the small layout, with the parameters of the script
    and a displacement that does not vanish elsewhere, is zero at the
    fixed node 1. *)
Lemma solution_vanishes_on_fixed_witness :
  well_formed toy_layout /\ disjoint_groups toy_layout /\
  interpolating pick_weights user_params toy_layout /\
  solves (G (assembled pick_weights user_params toy_layout))
         (d (assembled pick_weights user_params toy_layout)) pick_u /\
  1 ∈ group toy_layout "fixed" /\
  pick_u !! 4 = Some 1%R /\
  pick_u !! 1 = Some 0%R /\
  pick_u !! (length (nodes toy_layout) + 1) = Some 0%R.
Proof.
  assert (Hin : 1 ∈ group toy_layout "fixed").
  { destruct toy_groups as (_ & -> & _ & _). by left. }
  split; [apply toy_wf|]. split; [apply toy_disjoint|].
  split; [apply pick_interpolating|]. split; [apply pick_solution|].
  split; [exact Hin|]. split; [reflexivity|].
  exact (solution_vanishes_on_fixed pick_weights user_params toy_layout _
           pick_u 1 toy_wf toy_disjoint (pick_interpolating user_params)
           (pick_assemble user_params) pick_solution Hin).
Defined.

(** The cross blocks of the small layout agree on the ghost row 3. *)
Lemma cross_blocks_agree_off_free_witness :
  well_formed toy_layout /\
  G_xy (sys_blocks toy_system) !! 3 = G_yx (sys_blocks toy_system) !! 3.
Proof.
  split; [apply toy_wf|].
  apply (proj2 (cross_blocks_agree_off_free toy_weights user_params
                  toy_layout toy_system toy_wf (toy_assemble user_params))).
  destruct toy_groups as (_ & _ & -> & _).
  intros H. apply list_elem_of_singleton in H. discriminate H.
Defined.

(** A heavier load leaves the operator of the small layout alone. *)
Lemma operator_and_forcing_are_separate_witness :
  well_formed toy_layout /\
  G toy_system = G (assembled toy_weights heavy_params toy_layout).
Proof.
  split; [apply toy_wf|].
  destruct (operator_and_forcing_are_separate toy_weights user_params
              heavy_params toy_layout toy_layout _ _ toy_wf toy_wf
              (toy_assemble user_params) (toy_assemble heavy_params))
    as [H _].
  exact (proj2 (H eq_refl eq_refl eq_refl eq_refl)).
Defined.

(** The forcing of the small layout at the free node 2. *)
Lemma boundary_rows_are_unforced_witness :
  well_formed toy_layout /\ d toy_system !! 2 = Some 0%R /\
  d toy_system !! 6 = Some 0%R.
Proof.
  split; [apply toy_wf|].
  destruct (boundary_rows_are_unforced toy_weights user_params toy_layout
              toy_system 2 toy_wf (toy_assemble user_params)
              ltac:(simpl; lia)) as [H1 H2].
  split; [exact H1|exact H2].
Defined.

Lemma loose_groups :
  group loose_layout "interior" = [0] /\ group loose_layout "fixed" = [1] /\
  group loose_layout "free" = [2] /\ group loose_layout "free_ghosts" = [3].
Proof. by vm_compute. Qed.

Lemma loose_wf : well_formed loose_layout.
Proof.
  destruct loose_groups as (Hi & Hx & Hf & Hg).
  split.
  - unfold base_groups.
    repeat (apply Forall_cons; split); [..|apply Forall_nil];
      by vm_compute; eexists.
  - unfold base_groups.
    repeat (apply Forall_cons; split); [..|apply Forall_nil];
      rewrite ?Hi, ?Hx, ?Hf, ?Hg; repeat constructor; simpl; lia.
  - done.
Qed.

Lemma loose_assemble P :
  assemble toy_weights P loose_layout
  = Ok (assembled toy_weights P loose_layout).
Proof. apply assemble_total; [apply loose_wf|by vm_compute]. Qed.

(** Node 4 of the layout with an unlisted node has zero rows. *)
Lemma unlisted_node_rows_are_zero_witness :
  well_formed loose_layout /\
  G (assembled toy_weights user_params loose_layout) !! 4 = Some (zeros 10) /\
  G (assembled toy_weights user_params loose_layout) !! 9 = Some (zeros 10).
Proof.
  split; [apply loose_wf|].
  destruct loose_groups as (Hi & Hx & Hf & Hg).
  destruct (unlisted_node_rows_are_zero toy_weights user_params loose_layout
              _ 4 loose_wf (loose_assemble user_params) ltac:(simpl; lia))
    as (H1 & H2 & _).
  - unfold interior_ghosts. rewrite Hi, Hg. intros H.
    repeat (apply elem_of_cons in H as [H|H]; [discriminate H|]).
    by apply elem_of_nil in H.
  - rewrite Hx. intros H. apply list_elem_of_singleton in H. discriminate H.
  - rewrite Hf. intros H. apply list_elem_of_singleton in H. discriminate H.
  - split; [exact H1|exact H2].
Defined.

(** Doubling the body force on the small layout. *)
Lemma solution_scales_with_body_force_witness :
  well_formed toy_layout /\
  d (assembled toy_weights heavy_params toy_layout) = scale 2 (d toy_system).
Proof.
  split; [apply toy_wf|].
  refine (proj1 (proj2 (solution_scales_with_body_force toy_weights
            user_params heavy_params toy_layout _ _ 2 (zeros 8) toy_wf
            eq_refl eq_refl eq_refl _ (toy_assemble user_params)
            (toy_assemble heavy_params)))).
  simpl. lra.
Defined.

(** The plotted arrays of the small layout under the displacement
    [toy_u]: three entries, the second that of the free node 2, with
    u_x = 3, u_y = 7 and I2 = 4. *)
Lemma plotted_fields_without_ghosts_witness :
  well_formed toy_layout /\ disjoint_groups toy_layout /\
  stencil_fits toy_stencil user_params toy_layout /\
  exists out,
    postprocess toy_stencil user_params toy_layout toy_u = Ok out /\
    length (plot_nodes out) = 3 /\
    plot_u_x out !! 1 = Some 3%float /\
    plot_u_y out !! 1 = Some 7%float /\
    plot_I2 out !! 1 = Some 4%float /\
    forall v, v ∈ plot_I2 out -> (v <? 0)%float = false.
Proof.
  split; [apply toy_wf|]. split; [apply toy_disjoint|].
  split; [apply toy_stencil_fits|].
  destruct (plotted_fields_without_ghosts toy_stencil user_params toy_layout
              toy_u toy_wf toy_disjoint (toy_stencil_fits user_params)
              eq_refl)
    as (E & out & HE & Hout & Hn & _ & _ & _ & _ & Hrows & Hsign).
  assert (Hk : interior_boundary toy_layout !! 1 = Some 2) by (by vm_compute).
  destruct (Hrows 1 2 Hk) as (_ & _ & Hx & Hy & HI & _).
  assert (HE' : strain toy_stencil user_params toy_layout toy_u
                = Ok (pure_strain toy_stencil user_params toy_layout toy_u))
    by reflexivity.
  rewrite HE in HE'. injection HE' as ->.
  exists out. split; [exact Hout|]. split; [exact Hn|].
  split; [exact Hx|]. split; [exact Hy|]. split; [exact HI|exact Hsign].
Defined.

(** Without its groups the small layout cannot be assembled. *)
Lemma missing_group_key_error_witness :
  assemble toy_weights user_params keyless_layout = Err KeyError.
Proof.
  refine (proj2 (proj1 (missing_group_key_error toy_weights user_params
                          keyless_layout) _)).
  exists "fixed". split; [|reflexivity].
  unfold base_groups. apply elem_of_cons. right. by left.
Defined.

(** A vector of seven entries has no strain on the small layout. *)
Lemma strain_needs_both_components_witness :
  strain toy_stencil user_params toy_layout (replicate 7 1%float)
  = Err ValueError.
Proof.
  apply (proj1 (strain_needs_both_components toy_stencil user_params
                  toy_layout (replicate 7 1%float))).
  simpl. lia.
Defined.

(** Two halves, stacked and split again. *)
Lemma reshape_undoes_hstack_witness :
  reshape2 ([1; 2] ++ [3; 4])%R = Ok ([1; 2], [3; 4])%R.
Proof.
  exact (proj1 (reshape_undoes_hstack [1; 2]%R [3; 4]%R []) eq_refl).
Defined.

(** The dictionary of the small layout with its derived groups. *)
Abbreviation toy_ix :=
  (<["interior+boundary" := [0; 2; 1]]>
     (<["interior+ghosts" := [0; 3]]>
        (<["interior+free" := [0; 2]]> toy_idx))).

(** Tossing the ghost of the small layout leaves three nodes, in the
    order interior, free, fixed. *)
Lemma toss_ghosts_aligned_witness :
  exists out,
    toss_ghosts toy_ix toy_nodes (zeros 4) (zeros 4) (zeros 4) = Ok out /\
    length (plot_nodes out) = 3 /\
    plot_nodes out !! 1 = Some (2, 1)%R.
Proof.
  eexists. split; [reflexivity|].
  match goal with
  | |- context [plot_nodes ?o] =>
      assert (Hout : toss_ghosts toy_ix toy_nodes (zeros 4) (zeros 4)
                       (zeros 4) = Ok o) by reflexivity;
      destruct (proj1 (toss_ghosts_aligned toy_ix toy_nodes (zeros 4)
                         (zeros 4) (zeros 4)) o Hout)
        as (k & Hk & Hn & _ & _ & _ & Ha)
  end.
  vm_compute in Hk. injection Hk as <-.
  split; [exact Hn|]. exact (proj1 (Ha 1 2 eq_refl)).
Defined.
